(** * gpt-journal-web: the hierarchical compaction engine

    A shallow embedding of [src/ai.ts] (chat assembly, completion,
    selection of the run to summarise, compaction) and [src/db.ts]
    (the IndexedDB adapter, import and export), and the properties of the
    design document that can be checked against them.

    Conventions of the embedding:
    - a JavaScript [number] holding a token count or a level is a [Z];
      array indices are [nat];
    - a [Date] is its time value, [None] standing for the NaN time value of
      an "Invalid Date";
    - an [async] function that can reject is a function into [result];
      a function that also writes the database returns the database it
      leaves behind together with its [result];
    - the two object stores are finite maps keyed by the record's [id]
      (the stores are created with [keyPath: "id"]). *)

From Stdlib Require Import ZArith List Lia Ascii String.
From Stdlib Require Import DecimalString DecimalZ.
From stdpp Require Import gmap strings list fin_maps sorting.

Set Warnings "-clear-no-such-hyp".
Set Default Proof Using "Type".

Open Scope string_scope.
Open Scope list_scope.
Open Scope Z_scope.

(** ** Data model ([db.ts]) *)

(** [Date]: the time value in milliseconds, or [None] for an Invalid Date. *)
Definition Date : Type := option Z.

Module DBMessage.
Record t : Type := mk {
  id : string;
  createdAt : Date;
  userContent : string;
  assistantContent : string;
  tokensCount : Z;
  summaryId : string
}.
End DBMessage.

Module DBSummary.
Record t : Type := mk {
  id : string;
  dateFrom : Date;
  dateTo : Date;
  content : string;
  level : Z;
  tokensCount : Z;
  parentId : string
}.
End DBSummary.

#[global] Instance DBMessage_eq_dec : EqDecision DBMessage.t.
Proof. solve_decision. Defined.

#[global] Instance DBSummary_eq_dec : EqDecision DBSummary.t.
Proof. solve_decision. Defined.

(** ** Chat items ([ai.ts])

    [ChatMessage] and [ChatSummary] extend the database records with a
    [timestamp]; the [type] tag is the constructor of [ChatItem]. *)
Module ChatMessage.
Record t : Type := mk {
  record : DBMessage.t;
  timestamp : Date
}.
End ChatMessage.

Module ChatSummary.
Record t : Type := mk {
  record : DBSummary.t;
  timestamp : Date
}.
End ChatSummary.

Inductive ChatItem : Type :=
| Message (m : ChatMessage.t)
| Summary (s : ChatSummary.t).

#[global] Instance ChatMessage_eq_dec : EqDecision ChatMessage.t.
Proof. solve_decision. Defined.

#[global] Instance ChatSummary_eq_dec : EqDecision ChatSummary.t.
Proof. solve_decision. Defined.

#[global] Instance ChatItem_eq_dec : EqDecision ChatItem.
Proof. solve_decision. Defined.

Definition timestamp (item : ChatItem) : Date :=
  match item with
  | Message m => ChatMessage.timestamp m
  | Summary s => ChatSummary.timestamp s
  end.

(** ** The compaction selector: [selectMessagesForSummary] *)

Definition MIN_SUMMARY_TOKENS : Z := 4000.

(** [currentLevel] and [currentTokens] of the loop body. The [else throw]
    branch of the source is unreachable: [ChatItem] has two cases. *)
Definition currentLevel (item : ChatItem) : Z :=
  match item with
  | Message _ => 0
  | Summary s => DBSummary.level (ChatSummary.record s)
  end.

Definition currentTokens (item : ChatItem) : Z :=
  match item with
  | Message m => DBMessage.tokensCount (ChatMessage.record m)
  | Summary s => DBSummary.tokensCount (ChatSummary.record s)
  end.

(** [Math.ceil(n / 2)] for a count [n]. *)
Definition ceil_half (n : nat) : nat := Nat.div2 (n + 1).

(** [Array.prototype.slice(start, end)] for non-negative indices: the items
    at [start <= i < min end (length l)], nothing when [end <= start]. *)
Definition slice {A : Type} (l : list A) (start end_ : nat) : list A :=
  take (end_ - start) (drop start l).

(** The four mutable locals of [selectMessagesForSummary]. *)
Record SelectState : Type := mkSelect {
  startIndex : option nat;
  endIndex : option nat;
  level : option Z;
  tokens : Z
}.

Definition select_init : SelectState :=
  {| startIndex := None; endIndex := None; level := None; tokens := 0 |}.

(** The first half of the loop body: extend the run or start a new one. *)
Definition select_step (index : nat) (item : ChatItem) (st : SelectState)
  : SelectState :=
  if decide (Some (currentLevel item) = level st) then
    {| startIndex := startIndex st; endIndex := endIndex st;
       level := level st; tokens := tokens st + currentTokens item |}
  else
    {| startIndex := Some index; endIndex := endIndex st;
       level := Some (currentLevel item); tokens := currentTokens item |}.

(** The [for] loop, from [index] on; [rest] is [chat] from [index].
    The second half of the body sets [endIndex] and breaks. *)
Fixpoint select_loop (rest : list ChatItem) (index : nat) (st : SelectState)
  : SelectState :=
  match rest with
  | [] => st
  | item :: rest' =>
      let st1 := select_step index item st in
      match startIndex st1 with
      | Some start =>
          if MIN_SUMMARY_TOKENS * 2 <=? tokens st1 then
            let fullCount := (index - start + 1)%nat in
            let summaryCount := ceil_half fullCount in
            {| startIndex := startIndex st1;
               endIndex := Some (start + summaryCount)%nat;
               level := level st1; tokens := tokens st1 |}
          else select_loop rest' (S index) st1
      | None => select_loop rest' (S index) st1
      end
  end.

Definition selectMessagesForSummary (chat : list ChatItem) : list ChatItem :=
  let st := select_loop chat 0 select_init in
  match startIndex st, endIndex st with
  | Some start, Some end_ => slice chat start end_
  | _, _ => []
  end.

(** ** The selector as the design document words it

    A run is a maximal block of neighbouring items of one level. For an
    index [i], [runStart chat i] is where the run that holds [i] starts and
    [runSum chat i] is the cost of that run up to and including [i]. *)

Definition level_at (chat : list ChatItem) (i : nat) : option Z :=
  currentLevel <$> chat !! i.

Fixpoint runStart (chat : list ChatItem) (i : nat) : nat :=
  match i with
  | O => O
  | S j =>
      if decide (level_at chat (S j) = level_at chat j)
      then runStart chat j else S j
  end.

Definition sum_tokens (l : list ChatItem) : Z :=
  foldr (fun item acc => currentTokens item + acc) 0 l.

Definition runSum (chat : list ChatItem) (i : nat) : Z :=
  sum_tokens (slice chat (runStart chat i) (S i)).

Definition qualifies (chat : list ChatItem) (i : nat) : bool :=
  2 * MIN_SUMMARY_TOKENS <=? runSum chat i.

(** The least of the [n] indices from [i] on that satisfies [p]. *)
Fixpoint first_from (p : nat -> bool) (i n : nat) : option nat :=
  match n with
  | O => None
  | S n' => if p i then Some i else first_from p (S i) n'
  end.

Definition first_qualifying (chat : list ChatItem) : option nat :=
  first_from (qualifies chat) 0 (length chat).

Definition select_spec (chat : list ChatItem) : list ChatItem :=
  match first_qualifying chat with
  | Some i =>
      let len := (i - runStart chat i + 1)%nat in
      slice chat (runStart chat i) (runStart chat i + ceil_half len)
  | None => []
  end.

(** ** The selector, from the words of the design alone

    Written without any of the helpers of the loop. An item has a level,
    [0] for a message and the stored level for a summary, and a cost. The
    run of an index starts where the block of neighbours of its level
    starts; the budget is [B]; the selection is the first
    [ceil(len / 2)] items of the first run to reach twice the budget. *)
Definition B : Z := 4000.

Definition item_level (item : ChatItem) : Z :=
  match item with
  | Message _ => 0
  | Summary s => DBSummary.level (ChatSummary.record s)
  end.

Definition item_cost (item : ChatItem) : Z :=
  match item with
  | Message m => DBMessage.tokensCount (ChatMessage.record m)
  | Summary s => DBSummary.tokensCount (ChatSummary.record s)
  end.

(** [ceil(len / 2)]. *)
Definition half_up (len : nat) : nat := ((len + 1) / 2)%nat.

Fixpoint design_runStart (chat : list ChatItem) (i : nat) : nat :=
  match i with
  | O => O
  | S j =>
      if decide (item_level <$> chat !! S j = item_level <$> chat !! j)
      then design_runStart chat j else S j
  end.

(** The cost of the items from the start of the run of [i] up to [i]. *)
Definition design_runSum (chat : list ChatItem) (i : nat) : Z :=
  foldr Z.add 0
    (item_cost <$>
       take (S i - design_runStart chat i) (drop (design_runStart chat i) chat)).

Definition design_reached (chat : list ChatItem) (i : nat) : bool :=
  2 * B <=? design_runSum chat i.

(** The first index at which a run has reached twice the budget. *)
Definition design_first (chat : list ChatItem) : option nat :=
  first_from (design_reached chat) 0 (length chat).

Definition design_selection (chat : list ChatItem) : list ChatItem :=
  match design_first chat with
  | Some i =>
      let runStart := design_runStart chat i in
      let len := (i - runStart + 1)%nat in
      take (half_up len) (drop runStart chat)
  | None => []
  end.

(** ** Failure and the database-threading monad *)

(** What a [throw], a rejected promise or a failed request carries. *)
Inductive exn : Type :=
| Error (msg : string)      (* [new Error(msg)] *)
| TypeError                 (* a property read on [undefined] *)
| RangeError                (* an invalid time value *)
| Rejected (reason : string). (* a provider or an IndexedDB request failed *)

Inductive result (A : Type) : Type :=
| Ok (a : A)
| Err (e : exn).

Arguments Ok {A} a.
Arguments Err {A} e.

Definition result_bind {A B : Type} (r : result A) (k : A -> result B)
  : result B :=
  match r with
  | Ok a => k a
  | Err e => Err e
  end.

Notation "x <-? r ; k" := (result_bind r (fun x => k))
  (at level 100, r at next level, right associativity).

(** The two object stores of database [gpt_journal]. A record written from a
    chat item also carries that item's [type] and [timestamp]; no reader
    looks at them ([getChat] overwrites both, the export copies named
    fields), so a stored record is its [DBMessage] or [DBSummary] part. *)
Record DB : Type := mkDB {
  summaryStore : gmap string DBSummary.t;
  messageStore : gmap string DBMessage.t
}.

(** An [async] function working on the database. *)
Definition M (A : Type) : Type := DB -> DB * result A.

Definition M_ret {A : Type} (a : A) : M A := fun db => (db, Ok a).

Definition M_lift {A : Type} (r : result A) : M A := fun db => (db, r).

Definition M_bind {A B : Type} (m : M A) (k : A -> M B) : M B :=
  fun db =>
    match m db with
    | (db', Ok a) => k a db'
    | (db', Err e) => (db', Err e)
    end.

Notation "x <-! m ; k" := (M_bind m (fun x => k))
  (at level 100, m at next level, right associativity).

(** ** IndexedDB, as the code relies on it

    Requests made in one transaction apply in order to the transaction's
    view of the stores. A request that fails, with no handler cancelling
    the error, aborts the transaction, and an aborted transaction leaves
    the stores as they were. [open_error] and [request_error] say which
    step of one use of the database fails, if any. *)
Inductive IDBRequest : Type :=
| put_summary (s : DBSummary.t)
| put_message (m : DBMessage.t)
| clear_summary
| clear_message.

Record IDBEnv : Type := mkIDBEnv {
  open_error : option exn;
  request_error : nat -> option exn
}.

Definition apply_request (r : IDBRequest) (db : DB) : DB :=
  match r with
  | put_summary s =>
      {| summaryStore := <[DBSummary.id s := s]> (summaryStore db);
         messageStore := messageStore db |}
  | put_message m =>
      {| summaryStore := summaryStore db;
         messageStore := <[DBMessage.id m := m]> (messageStore db) |}
  | clear_summary =>
      {| summaryStore := ∅; messageStore := messageStore db |}
  | clear_message =>
      {| summaryStore := summaryStore db; messageStore := ∅ |}
  end.

Fixpoint run_requests (errs : nat -> option exn) (k : nat)
    (reqs : list IDBRequest) (db : DB) : result DB :=
  match reqs with
  | [] => Ok db
  | r :: reqs' =>
      match errs k with
      | Some e => Err e
      | None => run_requests errs (S k) reqs' (apply_request r db)
      end
  end.

Definition transaction (env : IDBEnv) (reqs : list IDBRequest) : M unit :=
  fun db =>
    match run_requests (request_error env) 0 reqs db with
    | Ok db' => (db', Ok tt)
    | Err e => (db, Err e)
    end.

(** [indexedDB.open] (or idb's [openDB]), then the body. *)
Definition with_open {A : Type} (env : IDBEnv) (body : M A) : M A :=
  fun db =>
    match open_error env with
    | Some e => (db, Err e)
    | None => body db
    end.

(** A cursor walks a store in the order of its keys. Keys are compared as
    strings, character code by character code. An id is a string of bytes
    here, so this is the order of IndexedDB, which compares UTF-16 code
    units, for ids within the Basic Multilingual Plane, the UUIDs that the
    engine makes among them; ids beyond it may come in another order. The
    properties below state which rows a cursor yields, and where they
    speak of an order it is the order of timestamps after the sort. *)
Definition key_le {A : Type} (a b : string * A) : Prop :=
  Is_true (String.leb a.1 b.1).

#[global] Instance key_le_dec {A : Type} (a b : string * A)
  : Decision (key_le a b).
Proof. unfold key_le. apply _. Defined.

Definition cursor {A : Type} (store : gmap string A) : list A :=
  (merge_sort key_le (map_to_list store)).*2.

(** [updateData]: one read-write transaction over both stores; the
    summaries are put first, then the messages. *)
Definition updateData (env : IDBEnv) (summaries : list DBSummary.t)
    (messages : list DBMessage.t) : M unit :=
  with_open env
    (transaction env (map put_summary summaries ++ map put_message messages)).

(** [getActiveMessages], [getActiveSummaries]: the cursor over the index on
    the parent reference, restricted to the key ["NULL"]. The one request
    of the transaction is the cursor. *)
Definition read_cursor {A : Type} (env : IDBEnv) (rows : DB -> list A)
  : M (list A) :=
  with_open env (fun db =>
    match request_error env 0%nat with
    | Some e => (db, Err e)
    | None => (db, Ok (rows db))
    end).

Definition getActiveMessages (env : IDBEnv) : M (list DBMessage.t) :=
  read_cursor env (fun db =>
    filter (fun m => DBMessage.summaryId m = "NULL") (cursor (messageStore db))).

Definition getActiveSummaries (env : IDBEnv) : M (list DBSummary.t) :=
  read_cursor env (fun db =>
    filter (fun s => DBSummary.parentId s = "NULL") (cursor (summaryStore db))).

(** ** The chat assembler: [getChat] *)

(** The comparator [a.timestamp.valueOf() - b.timestamp.valueOf()];
    [None] is NaN. *)
Definition compare_timestamp (a b : ChatItem) : option Z :=
  match timestamp a, timestamp b with
  | Some x, Some y => Some (x - y)
  | _, _ => None
  end.

(** [Array.prototype.sort(comparefn)]: stable, an item moves behind another
    only when the comparator is positive (NaN counts as [+0]). With a
    consistent comparator every conforming engine returns this list. With
    an Invalid Date among the timestamps the comparator is not consistent,
    and the order is then the engine's own: the properties of the order
    are stated for valid dates. *)
Definition comes_after (v : option Z) : bool :=
  match v with
  | Some d => 0 <? d
  | None => false
  end.

Fixpoint sort_insert {A : Type} (comparefn : A -> A -> option Z) (x : A)
    (sorted : list A) : list A :=
  match sorted with
  | [] => [x]
  | y :: sorted' =>
      if comes_after (comparefn x y)
      then y :: sort_insert comparefn x sorted'
      else x :: sorted
  end.

Fixpoint sort {A : Type} (comparefn : A -> A -> option Z) (l : list A)
  : list A :=
  match l with
  | [] => []
  | x :: l' => sort_insert comparefn x (sort comparefn l')
  end.

Definition messageItem (m : DBMessage.t) : ChatItem :=
  Message {| ChatMessage.record := m;
             ChatMessage.timestamp := DBMessage.createdAt m |}.

Definition summaryItem (s : DBSummary.t) : ChatItem :=
  Summary {| ChatSummary.record := s;
             ChatSummary.timestamp := DBSummary.dateTo s |}.

(** [getChat]; each of the two reads opens the database anew. *)
Definition getChat (envM envS : IDBEnv) : M (list ChatItem) :=
  messages <-! getActiveMessages envM;
  summaries <-! getActiveSummaries envS;
  let messageItems := map messageItem messages in
  let summaryItems := map summaryItem summaries in
  M_ret (sort compare_timestamp (messageItems ++ summaryItems)).

(** ** The providers' messages *)

Inductive Role : Type := system | user | assistant | developer.

Record OpenAIMessage : Type := mkOpenAIMessage {
  role : Role;
  name : option string;
  content : string
}.

Record CompletionChoice : Type := mkChoice { message : OpenAIMessage }.

Record OpenAICompletion : Type := mkCompletion {
  choices : list CompletionChoice
}.

Record ChatCompletionRequest : Type := mkRequest {
  model : string;
  messages : list OpenAIMessage;
  temperature : Z
}.

Record Usage : Type := mkUsage { prompt_tokens : Z; total_tokens : Z }.

Record EmbeddingResponse : Type := mkEmbedding { usage : Usage }.

Definition CHAT_SYSTEM_PROPMT : string :=
  "You are ChatGPT, a supportive and empathetic assistant helping the user to maintain a personal journal. Your role is to encourage self-reflection, provide constructive feedback, and prompt the user with questions that deepen their understanding of their thoughts and emotions. Ensure confidentiality and create a safe, non-judgmental space for expression. Guide the user towards clarity and personal growth by suggesting insights and encouraging positive, actionable steps.".

Definition COMPRESS_SYSTEM_MESSAGE : string :=
  "Твоя задача - выделить главную информацию из набора предоставленных сообщений в виде списка с указанием временных меток.

**Формат ответа:**

- [временная метка или диапазон] факт, событие, вывод.
- [временная метка или диапазон] факт, событие, вывод.
- [временная метка или диапазон] факт, событие, вывод.".

Definition COMPRESS_SYSTEM_MESSAGE_2 : string :=
  "Выпиши главную информацию из предоставленных сообщений.".

(** The separator of the template strings, two line feeds. *)
Definition nl2 : string := String "010" (String "010" EmptyString).

(** [Array.prototype.join(sep)]. *)
Fixpoint join (sep : string) (l : list string) : string :=
  match l with
  | [] => ""
  | [x] => x
  | x :: l' => x +:+ sep +:+ join sep l'
  end.

(** [resp.choices[0].message.content]: reading [message] of a missing first
    choice throws a TypeError. *)
Definition first_choice_content (resp : OpenAICompletion) : result string :=
  match choices resp with
  | c :: _ => Ok (content (message c))
  | [] => Err TypeError
  end.

(** ** The interchange document ([db.ts]) *)

Module ImportedMessage.
Record t : Type := mk {
  id : string;
  created_at : string;
  user_content : string;
  assistant_content : string;
  tokens_count : Z;
  summary_id : option string
}.
End ImportedMessage.

Module ImportedSummary.
Record t : Type := mk {
  id : string;
  date_from : string;
  date_to : string;
  content : string;
  level : Z;
  tokens_count : Z;
  parent_id : option string
}.
End ImportedSummary.

Module ImportedData.
Record data_t : Type := mkData {
  message : list ImportedMessage.t;
  summary : list ImportedSummary.t
}.
Record t : Type := mk {
  version : string;
  data : data_t
}.
End ImportedData.

(** [x ?? "NULL"] and [x !== "NULL" ? x : null]. *)
Definition null_to_sentinel (x : option string) : string :=
  match x with
  | Some s => s
  | None => "NULL"
  end.

Definition sentinel_to_null (s : string) : option string :=
  if decide (s = "NULL") then None else Some s.

(** ** A stand-in clock and stand-in providers

    Concrete values for what the engine takes from its surroundings, used
    where a property is run on an example: time values written in
    decimal, a completion provider that answers [reply] at temperature
    [1] and is [down] for any other request, an embedding provider that
    counts [cost] tokens for every text. *)
Definition decimal_toISOString (t : Z) : string :=
  NilEmpty.string_of_int (Z.to_int t).

Definition decimal_Date_parse (s : string) : Date :=
  Z.of_int <$> NilEmpty.int_of_string s.

Definition decimal_formatTimestamp (d : Date) : result string :=
  match d with
  | Some t => Ok (decimal_toISOString t)
  | None => Err RangeError
  end.

Definition completion_reply (reply : string) : OpenAICompletion :=
  {| choices :=
       [ {| message :=
              {| role := assistant; name := None; content := reply |} |} ] |}.

Definition always_completes (reply : string) (req : ChatCompletionRequest)
  : result OpenAICompletion :=
  Ok (completion_reply reply).

Definition chat_only_completes (reply : string) (req : ChatCompletionRequest)
  : result OpenAICompletion :=
  if decide (temperature req = 1) then Ok (completion_reply reply)
  else Err (Rejected "503").

Definition flat_embedding (cost : Z) (input : string)
  : result EmbeddingResponse :=
  Ok {| usage := {| prompt_tokens := cost; total_tokens := cost |} |}.

(** A database use in which nothing fails. *)
Definition idb_ok : IDBEnv :=
  {| open_error := None; request_error := fun _ => None |}.

(** Example records: a journal entry written at time [t], a digest of the
    span from [from] to [to], and two interchange documents, the second
    with a summary whose id is the string ["NULL"]. *)
Definition journal_entry (id : string) (t cost : Z) : ChatMessage.t :=
  {| ChatMessage.timestamp := Some t;
     ChatMessage.record :=
       {| DBMessage.id := id;
          DBMessage.createdAt := Some t;
          DBMessage.userContent := "dear diary";
          DBMessage.assistantContent := "go on";
          DBMessage.tokensCount := cost;
          DBMessage.summaryId := "NULL" |} |}.

Definition digest (id : string) (from to lvl cost : Z) : ChatSummary.t :=
  {| ChatSummary.timestamp := Some to;
     ChatSummary.record :=
       {| DBSummary.id := id;
          DBSummary.dateFrom := Some from;
          DBSummary.dateTo := Some to;
          DBSummary.content := "what happened";
          DBSummary.level := lvl;
          DBSummary.tokensCount := cost;
          DBSummary.parentId := "NULL" |} |}.

Definition empty_db : DB := {| summaryStore := ∅; messageStore := ∅ |}.

Definition document (summaryId : string) : ImportedData.t :=
  {| ImportedData.version := "1";
     ImportedData.data :=
       {| ImportedData.summary :=
            [ {| ImportedSummary.id := summaryId;
                 ImportedSummary.date_from := "10";
                 ImportedSummary.date_to := "20";
                 ImportedSummary.content := "what happened";
                 ImportedSummary.level := 1;
                 ImportedSummary.tokens_count := 7;
                 ImportedSummary.parent_id := None |} ];
          ImportedData.message :=
            [ {| ImportedMessage.id := "m1";
                 ImportedMessage.created_at := "10";
                 ImportedMessage.user_content := "dear diary";
                 ImportedMessage.assistant_content := "go on";
                 ImportedMessage.tokens_count := 5;
                 ImportedMessage.summary_id := Some summaryId |};
              {| ImportedMessage.id := "m2";
                 ImportedMessage.created_at := "30";
                 ImportedMessage.user_content := "more";
                 ImportedMessage.assistant_content := "noted";
                 ImportedMessage.tokens_count := 3;
                 ImportedMessage.summary_id := None |} ] |} |}.

(** A message of an interchange document, and a document of messages
    only; a store of one journal entry and one digest; a database that
    cannot be opened. *)
Definition note (id created_at text : string) : ImportedMessage.t :=
  {| ImportedMessage.id := id;
     ImportedMessage.created_at := created_at;
     ImportedMessage.user_content := text;
     ImportedMessage.assistant_content := "noted";
     ImportedMessage.tokens_count := 3;
     ImportedMessage.summary_id := None |}.

Definition notes_document (notes : list ImportedMessage.t) : ImportedData.t :=
  {| ImportedData.version := "1";
     ImportedData.data :=
       {| ImportedData.summary := []; ImportedData.message := notes |} |}.

Definition small_db : DB :=
  {| summaryStore := {["s1" := ChatSummary.record (digest "s1" 1 10 1 7)]};
     messageStore := {["m1" := ChatMessage.record (journal_entry "m1" 10 5)]} |}.

Definition idb_blocked : IDBEnv :=
  {| open_error := Some (Rejected "blocked"); request_error := fun _ => None |}.

(** ** The engine over its surroundings *)

Module Compress.
Record state : Type := mk {
  messagesText : list string;
  dateFrom : option Date;
  dateTo : option Date;
  level : option Z
}.
End Compress.

Module Converted.
Record t : Type := mk {
  message : list DBMessage.t;
  summary : list DBSummary.t
}.
End Converted.

(** What [NewMessageView] shows after [send]: the text box, the sending
    flag, what went to [console.error] and what was alerted. *)
Record SendView : Type := mkSendView {
  value : string;
  isSending : bool;
  console_error : list (string * exn);
  alerts : list string
}.

Section Engine.

(** date-fns [format] with the pattern of [formatTimestamp]; it throws on an
    invalid date, so it is taken as a function that may fail. *)
Variable formatTimestamp : Date -> result string.

(** The two HTTP calls. *)
Variable createChatCompletion : ChatCompletionRequest -> result OpenAICompletion.
Variable createTextEmbedding : string -> result EmbeddingResponse.

(** [new Date(string)] and [Date.prototype.toISOString] on a valid date. *)
Variable Date_parse : string -> Date.
Variable toISOString : Z -> string.

(** *** [createCompletion] *)

(** The [for] loop over the chat, pushing onto [messages]. *)
Fixpoint transcript (chat : list ChatItem) (messages : list OpenAIMessage)
  : result (list OpenAIMessage) :=
  match chat with
  | [] => Ok messages
  | Message item :: chat' =>
      let item := ChatMessage.record item in
      ts <-? formatTimestamp (DBMessage.createdAt item);
      let meta := "[" +:+ ts +:+ "]" in
      transcript chat'
        (messages ++
           [ {| role := user; name := None;
                content := meta +:+ nl2 +:+ DBMessage.userContent item |};
             {| role := assistant; name := None;
                content := DBMessage.assistantContent item |} ])
  | Summary item :: chat' =>
      let item := ChatSummary.record item in
      from <-? formatTimestamp (DBSummary.dateFrom item);
      to <-? formatTimestamp (DBSummary.dateTo item);
      let meta := "[" +:+ from +:+ " - " +:+ to +:+ "]" in
      transcript chat'
        (messages ++
           [ {| role := developer; name := Some "summary";
                content := meta +:+ nl2 +:+ DBSummary.content item |} ])
  end.

(** [id] is what [uuidv4().toString()] returns in this call. *)
Definition createCompletion (env : IDBEnv) (id : string)
    (chat : list ChatItem) (text : string) (timestamp : Date)
  : M (list ChatItem) :=
  messages <-! M_lift (transcript chat
                 [ {| role := system; name := None;
                      content := CHAT_SYSTEM_PROPMT |} ]);
  ts <-! M_lift (formatTimestamp timestamp);
  let meta := "[" +:+ ts +:+ "]" in
  let messages :=
    messages ++
      [ {| role := user; name := None; content := meta +:+ nl2 +:+ text |} ] in
  resp <-! M_lift (createChatCompletion
             {| model := "gpt-4o"; temperature := 1; messages := messages |});
  respText <-! M_lift (first_choice_content resp);
  embedding <-! M_lift (createTextEmbedding (text +:+ nl2 +:+ respText));
  let tokens := total_tokens (usage embedding) in
  let newMessage :=
    {| ChatMessage.timestamp := timestamp;
       ChatMessage.record :=
         {| DBMessage.id := id;
            DBMessage.createdAt := timestamp;
            DBMessage.userContent := text;
            DBMessage.assistantContent := respText;
            DBMessage.tokensCount := tokens;
            DBMessage.summaryId := "NULL" |} |} in
  _ <-! updateData env [] [ChatMessage.record newMessage];
  M_ret (chat ++ [Message newMessage]).

(** *** [compressMessages] *)

Definition compress_init : Compress.state :=
  {| Compress.messagesText := []; Compress.dateFrom := None;
     Compress.dateTo := None; Compress.level := None |}.

(** [dateFrom ?? d]. *)
Definition or_else (dateFrom : option Date) (d : Date) : option Date :=
  match dateFrom with
  | Some d0 => Some d0
  | None => Some d
  end.

Fixpoint compress_loop (messages : list ChatItem) (st : Compress.state)
  : result Compress.state :=
  match messages with
  | [] => Ok st
  | Message message :: messages' =>
      let message := ChatMessage.record message in
      ts <-? formatTimestamp (DBMessage.createdAt message);
      let userMeta := "[USER, " +:+ ts +:+ "]" in
      let userStr := userMeta +:+ nl2 +:+ DBMessage.userContent message in
      let assistantMeta := "[ASSISTANT, " +:+ ts +:+ "]" in
      let assistantStr :=
        assistantMeta +:+ nl2 +:+ DBMessage.assistantContent message in
      let fullStr := userStr +:+ nl2 +:+ assistantStr in
      compress_loop messages'
        {| Compress.messagesText := Compress.messagesText st ++ [fullStr];
           Compress.dateFrom :=
             or_else (Compress.dateFrom st) (DBMessage.createdAt message);
           Compress.dateTo := Some (DBMessage.createdAt message);
           Compress.level := Some 0 |}
  | Summary message :: messages' =>
      let message := ChatSummary.record message in
      from <-? formatTimestamp (DBSummary.dateFrom message);
      to <-? formatTimestamp (DBSummary.dateTo message);
      let meta := "[SUMMARY, " +:+ from +:+ " - " +:+ to +:+ "]" in
      let fullStr := meta +:+ nl2 +:+ DBSummary.content message in
      compress_loop messages'
        {| Compress.messagesText := Compress.messagesText st ++ [fullStr];
           Compress.dateFrom :=
             or_else (Compress.dateFrom st) (DBSummary.dateFrom message);
           Compress.dateTo := Some (DBSummary.dateTo message);
           Compress.level := Some (DBSummary.level message) |}
  end.

Definition compress_request (messagesText : list string)
  : ChatCompletionRequest :=
  {| model := "gpt-4o";
     messages :=
       [ {| role := system; name := None; content := COMPRESS_SYSTEM_MESSAGE |};
         {| role := user; name := None; content := join nl2 messagesText |};
         {| role := system; name := None;
            content := COMPRESS_SYSTEM_MESSAGE_2 |} ];
     temperature := 0 |}.

Definition compressMessages (id : string) (messages : list ChatItem)
  : result ChatSummary.t :=
  st <-? compress_loop messages compress_init;
  match Compress.dateFrom st, Compress.dateTo st, Compress.level st with
  | Some dateFrom, Some dateTo, Some level =>
      result <-? createChatCompletion (compress_request (Compress.messagesText st));
      resultText <-? first_choice_content result;
      embedding <-? createTextEmbedding resultText;
      let resultTokens := total_tokens (usage embedding) in
      Ok {| ChatSummary.timestamp := dateTo;
            ChatSummary.record :=
              {| DBSummary.id := id;
                 DBSummary.dateFrom := dateFrom;
                 DBSummary.dateTo := dateTo;
                 DBSummary.content := resultText;
                 DBSummary.level := level + 1;
                 DBSummary.tokensCount := resultTokens;
                 DBSummary.parentId := "NULL" |} |}
  | _, _, _ => Err (Error "Empty summary")
  end.

(** *** [replaceMessages] and [compressChat] *)

(** [{ ...item, summaryId: id }] and [{ ...item, parentId: id }]. *)
Definition with_summaryId (item : DBMessage.t) (id : string) : DBMessage.t :=
  {| DBMessage.id := DBMessage.id item;
     DBMessage.createdAt := DBMessage.createdAt item;
     DBMessage.userContent := DBMessage.userContent item;
     DBMessage.assistantContent := DBMessage.assistantContent item;
     DBMessage.tokensCount := DBMessage.tokensCount item;
     DBMessage.summaryId := id |}.

Definition with_parentId (item : DBSummary.t) (id : string) : DBSummary.t :=
  {| DBSummary.id := DBSummary.id item;
     DBSummary.dateFrom := DBSummary.dateFrom item;
     DBSummary.dateTo := DBSummary.dateTo item;
     DBSummary.content := DBSummary.content item;
     DBSummary.level := DBSummary.level item;
     DBSummary.tokensCount := DBSummary.tokensCount item;
     DBSummary.parentId := id |}.

(** The [for] loop of [replaceMessages], pushing onto the two arrays. *)
Fixpoint replace_loop (items : list ChatItem) (summary : ChatSummary.t)
    (messages : list DBMessage.t) (summaries : list DBSummary.t)
  : list DBMessage.t * list DBSummary.t :=
  match items with
  | [] => (messages, summaries)
  | Message item :: items' =>
      replace_loop items' summary
        (messages ++
           [with_summaryId (ChatMessage.record item)
              (DBSummary.id (ChatSummary.record summary))])
        summaries
  | Summary item :: items' =>
      replace_loop items' summary messages
        (summaries ++
           [with_parentId (ChatSummary.record item)
              (DBSummary.id (ChatSummary.record summary))])
  end.

Definition replaceMessages (env : IDBEnv) (items : list ChatItem)
    (summary : ChatSummary.t) : M unit :=
  let '(messages, summaries) :=
    replace_loop items summary [] [ChatSummary.record summary] in
  updateData env summaries messages.

Definition compressChat (env : IDBEnv) (id : string) (chat : list ChatItem)
  : M unit :=
  let messagesForSummary := selectMessagesForSummary chat in
  if decide (length messagesForSummary = 0%nat) then M_ret tt
  else
    summary <-! M_lift (compressMessages id messagesForSummary);
    replaceMessages env messagesForSummary summary.

(** *** [usePostMessage] and [NewMessageView.send]

    [chat] is what the [useGetChat] hook holds, [now] the time value of
    [new Date()], [messageId] and [summaryId] the two fresh uuids, [env1]
    and [env2] the database uses of the two [updateData] calls. The closing
    [invalidateQueries] only refreshes the view and is left out. *)
Definition execute (env1 env2 : IDBEnv) (messageId summaryId : string)
    (chat : list ChatItem) (now : Z) (text : string) : M unit :=
  let timestamp : Date := Some now in
  newChat <-! createCompletion env1 messageId chat text timestamp;
  compressChat env2 summaryId newChat.

Definition send (env1 env2 : IDBEnv) (messageId summaryId : string)
    (chat : list ChatItem) (now : Z) (value : string) (db : DB)
  : DB * SendView :=
  match execute env1 env2 messageId summaryId chat now value db with
  | (db', Ok _) =>
      (db', {| value := ""; isSending := false;
               console_error := []; alerts := [] |})
  | (db', Err e) =>
      (db', {| value := value; isSending := false;
               console_error := [("Failed to send message", e)];
               alerts := ["Ошибка при отправке сообщения"] |})
  end.

(** *** Import and export ([db.ts]) *)

(** The two callbacks of [convertImportedData]. *)
Definition convert_message (msg : ImportedMessage.t) : DBMessage.t :=
  {| DBMessage.id := ImportedMessage.id msg;
     DBMessage.createdAt := Date_parse (ImportedMessage.created_at msg);
     DBMessage.userContent := ImportedMessage.user_content msg;
     DBMessage.assistantContent := ImportedMessage.assistant_content msg;
     DBMessage.tokensCount := ImportedMessage.tokens_count msg;
     DBMessage.summaryId := null_to_sentinel (ImportedMessage.summary_id msg) |}.

Definition convert_summary (sum : ImportedSummary.t) : DBSummary.t :=
  {| DBSummary.id := ImportedSummary.id sum;
     DBSummary.dateFrom := Date_parse (ImportedSummary.date_from sum);
     DBSummary.dateTo := Date_parse (ImportedSummary.date_to sum);
     DBSummary.content := ImportedSummary.content sum;
     DBSummary.level := ImportedSummary.level sum;
     DBSummary.tokensCount := ImportedSummary.tokens_count sum;
     DBSummary.parentId := null_to_sentinel (ImportedSummary.parent_id sum) |}.

Definition convertImportedData (importedData : ImportedData.t) : Converted.t :=
  let dbMessages :=
    map convert_message
      (ImportedData.message (ImportedData.data importedData)) in
  let dbSummaries :=
    map convert_summary
      (ImportedData.summary (ImportedData.data importedData)) in
  {| Converted.message := dbMessages; Converted.summary := dbSummaries |}.

(** [importDataToIndexedDB]: one read-write transaction that clears both
    stores, then puts the summaries, then the messages. *)
Definition importDataToIndexedDB (env : IDBEnv) (importedData : ImportedData.t)
  : M unit :=
  let convertedData := convertImportedData importedData in
  with_open env
    (transaction env
       ([clear_summary; clear_message]
          ++ map put_summary (Converted.summary convertedData)
          ++ map put_message (Converted.message convertedData))).

(** [d.toISOString()]: a RangeError on an invalid date. *)
Definition Date_toISOString (d : Date) : result string :=
  match d with
  | Some t => Ok (toISOString t)
  | None => Err RangeError
  end.

Definition export_summary (summary : DBSummary.t) : result ImportedSummary.t :=
  date_from <-? Date_toISOString (DBSummary.dateFrom summary);
  date_to <-? Date_toISOString (DBSummary.dateTo summary);
  Ok {| ImportedSummary.id := DBSummary.id summary;
        ImportedSummary.date_from := date_from;
        ImportedSummary.date_to := date_to;
        ImportedSummary.content := DBSummary.content summary;
        ImportedSummary.level := DBSummary.level summary;
        ImportedSummary.tokens_count := DBSummary.tokensCount summary;
        ImportedSummary.parent_id :=
          sentinel_to_null (DBSummary.parentId summary) |}.

Definition export_message (message : DBMessage.t) : result ImportedMessage.t :=
  created_at <-? Date_toISOString (DBMessage.createdAt message);
  Ok {| ImportedMessage.id := DBMessage.id message;
        ImportedMessage.created_at := created_at;
        ImportedMessage.user_content := DBMessage.userContent message;
        ImportedMessage.assistant_content := DBMessage.assistantContent message;
        ImportedMessage.tokens_count := DBMessage.tokensCount message;
        ImportedMessage.summary_id :=
          sentinel_to_null (DBMessage.summaryId message) |}.

(** A [for await] loop over a store's cursor, pushing what [f] builds. *)
Fixpoint for_each {A B : Type} (f : A -> result B) (rows : list A)
  : result (list B) :=
  match rows with
  | [] => Ok []
  | row :: rows' =>
      b <-? f row;
      bs <-? for_each f rows';
      Ok (b :: bs)
  end.

(** [exportDataFromIndexedDB]: a read-only transaction; the summaries'
    cursor is its first request, the messages' cursor its second. *)
Definition exportDataFromIndexedDB (env : IDBEnv) : M ImportedData.t :=
  with_open env (fun db =>
    (db,
     match request_error env 0%nat with
     | Some e => Err e
     | None =>
         summary <-? for_each export_summary (cursor (summaryStore db));
         match request_error env 1%nat with
         | Some e => Err e
         | None =>
             message <-? for_each export_message (cursor (messageStore db));
             Ok {| ImportedData.version := "1";
                   ImportedData.data :=
                     {| ImportedData.summary := summary;
                        ImportedData.message := message |} |}
         end
     end)).

(** ** Notions used to state the properties *)

(** What the locals hold before the iteration at [index]. *)
Definition select_inv (chat : list ChatItem) (index : nat) (st : SelectState)
  : Prop :=
  match index with
  | O => st = select_init
  | S j =>
      st = {| startIndex := Some (runStart chat j); endIndex := None;
              level := level_at chat j; tokens := runSum chat j |}
  end.

(** Where the span covered by an item starts, and the timestamp the item
    is ordered by ([createdAt] for a message, [dateTo] for a summary). *)
Definition spanStart (item : ChatItem) : Date :=
  match item with
  | Message m => DBMessage.createdAt (ChatMessage.record m)
  | Summary s => DBSummary.dateFrom (ChatSummary.record s)
  end.

Definition orderingTimestamp (item : ChatItem) : Date :=
  match item with
  | Message m => DBMessage.createdAt (ChatMessage.record m)
  | Summary s => DBSummary.dateTo (ChatSummary.record s)
  end.

Definition is_Ok {A : Type} (r : result A) : Prop := exists a, r = Ok a.

(** [formatTimestamp] succeeds on the dates of an item. *)
Definition formats (item : ChatItem) : Prop :=
  match item with
  | Message m => is_Ok (formatTimestamp (DBMessage.createdAt (ChatMessage.record m)))
  | Summary s =>
      is_Ok (formatTimestamp (DBSummary.dateFrom (ChatSummary.record s))) /\
      is_Ok (formatTimestamp (DBSummary.dateTo (ChatSummary.record s)))
  end.

(** The records of the chat items of each kind, in order. *)
Definition slice_messages (items : list ChatItem) : list DBMessage.t :=
  omap (fun item => match item with
                    | Message m => Some (ChatMessage.record m)
                    | Summary _ => None
                    end) items.

Definition slice_summaries (items : list ChatItem) : list DBSummary.t :=
  omap (fun item => match item with
                    | Message _ => None
                    | Summary s => Some (ChatSummary.record s)
                    end) items.

(** A store after [put] of each record of [l] in turn. *)
Definition put_all {A : Type} (key : A -> string) (l : list A)
    (store : gmap string A) : gmap string A :=
  foldl (fun store x => <[key x := x]> store) store l.

(** The stores after a list of requests, none of which fails. *)
Definition apply_requests (reqs : list IDBRequest) (db : DB) : DB :=
  foldl (fun db r => apply_request r db) db reqs.

(** No step of a database use fails. *)
Definition no_errors (env : IDBEnv) : Prop :=
  open_error env = None /\ forall k, request_error env k = None.

(** The active records of a store: those whose parent reference is the
    sentinel. *)
Definition active_message (db : DB) (m : DBMessage.t) : Prop :=
  exists k, messageStore db !! k = Some m /\ DBMessage.summaryId m = "NULL".

Definition active_summary (db : DB) (s : DBSummary.t) : Prop :=
  exists k, summaryStore db !! k = Some s /\ DBSummary.parentId s = "NULL".

(** Ordered by timestamp, both timestamps being valid dates. *)
Definition timestamp_le (a b : ChatItem) : Prop :=
  exists x y, timestamp a = Some x /\ timestamp b = Some y /\ x <= y.


(** A timestamp string as the export writes it back: the same instant in
    the form of [toISOString]. *)
Definition canonical (s : string) : string :=
  match Date_parse s with
  | Some t => toISOString t
  | None => s
  end.

Definition normal_message (m : ImportedMessage.t) : ImportedMessage.t :=
  {| ImportedMessage.id := ImportedMessage.id m;
     ImportedMessage.created_at := canonical (ImportedMessage.created_at m);
     ImportedMessage.user_content := ImportedMessage.user_content m;
     ImportedMessage.assistant_content := ImportedMessage.assistant_content m;
     ImportedMessage.tokens_count := ImportedMessage.tokens_count m;
     ImportedMessage.summary_id := ImportedMessage.summary_id m |}.

Definition normal_summary (s : ImportedSummary.t) : ImportedSummary.t :=
  {| ImportedSummary.id := ImportedSummary.id s;
     ImportedSummary.date_from := canonical (ImportedSummary.date_from s);
     ImportedSummary.date_to := canonical (ImportedSummary.date_to s);
     ImportedSummary.content := ImportedSummary.content s;
     ImportedSummary.level := ImportedSummary.level s;
     ImportedSummary.tokens_count := ImportedSummary.tokens_count s;
     ImportedSummary.parent_id := ImportedSummary.parent_id s |}.

(** A well-formed document: ids distinct within each array, timestamps
    that are dates, parent references that name a summary of the
    document. *)
Definition well_formed (doc : ImportedData.t) : Prop :=
  let messages := ImportedData.message (ImportedData.data doc) in
  let summaries := ImportedData.summary (ImportedData.data doc) in
  NoDup (ImportedMessage.id <$> messages) /\
  NoDup (ImportedSummary.id <$> summaries) /\
  Forall (fun m => is_Some (Date_parse (ImportedMessage.created_at m)))
    messages /\
  Forall (fun s => is_Some (Date_parse (ImportedSummary.date_from s)) /\
                   is_Some (Date_parse (ImportedSummary.date_to s)))
    summaries /\
  Forall (fun m => forall p, ImportedMessage.summary_id m = Some p ->
                             p ∈ ImportedSummary.id <$> summaries)
    messages /\
  Forall (fun s => forall p, ImportedSummary.parent_id s = Some p ->
                             p ∈ ImportedSummary.id <$> summaries)
    summaries.

(** No parent reference of the document is the string ["NULL"]. *)
Definition no_sentinel_reference (doc : ImportedData.t) : Prop :=
  Forall (fun m => ImportedMessage.summary_id m <> Some "NULL")
    (ImportedData.message (ImportedData.data doc)) /\
  Forall (fun s => ImportedSummary.parent_id s <> Some "NULL")
    (ImportedData.summary (ImportedData.data doc)).

(** Import, then export what the import left. *)
Definition roundtrip (envI envE : IDBEnv) (doc : ImportedData.t)
  : M ImportedData.t :=
  _ <-! importDataToIndexedDB envI doc;
  exportDataFromIndexedDB envE.

(** The round trip returns the records of the document, every field as it
    was and every timestamp in its canonical form. *)
Definition roundtrip_preserves (envI envE : IDBEnv) (doc : ImportedData.t)
    (db : DB) : Prop :=
  exists db' doc',
    roundtrip envI envE doc db = (db', Ok doc') /\
    ImportedData.version doc' = "1" /\
    ImportedData.message (ImportedData.data doc')
      ≡ₚ normal_message <$> ImportedData.message (ImportedData.data doc) /\
    ImportedData.summary (ImportedData.data doc')
      ≡ₚ normal_summary <$> ImportedData.summary (ImportedData.data doc).

(** What becomes of a parent reference on the way through the store: the
    string ["NULL"] is the store's sign for no parent, so a reference
    written as that string comes back as null; any other comes back as it
    was. *)
Definition collapse_sentinel (x : option string) : option string :=
  if decide (x = Some "NULL") then None else x.

Definition collapsed_message (m : ImportedMessage.t) : ImportedMessage.t :=
  {| ImportedMessage.id := ImportedMessage.id m;
     ImportedMessage.created_at := canonical (ImportedMessage.created_at m);
     ImportedMessage.user_content := ImportedMessage.user_content m;
     ImportedMessage.assistant_content := ImportedMessage.assistant_content m;
     ImportedMessage.tokens_count := ImportedMessage.tokens_count m;
     ImportedMessage.summary_id :=
       collapse_sentinel (ImportedMessage.summary_id m) |}.

Definition collapsed_summary (s : ImportedSummary.t) : ImportedSummary.t :=
  {| ImportedSummary.id := ImportedSummary.id s;
     ImportedSummary.date_from := canonical (ImportedSummary.date_from s);
     ImportedSummary.date_to := canonical (ImportedSummary.date_to s);
     ImportedSummary.content := ImportedSummary.content s;
     ImportedSummary.level := ImportedSummary.level s;
     ImportedSummary.tokens_count := ImportedSummary.tokens_count s;
     ImportedSummary.parent_id :=
       collapse_sentinel (ImportedSummary.parent_id s) |}.

(** The round trip returns the records of the document, every timestamp
    in its canonical form, a parent reference written as ["NULL"] as null,
    and every other field as it was. *)
Definition roundtrip_collapses (envI envE : IDBEnv) (doc : ImportedData.t)
    (db : DB) : Prop :=
  exists db' doc',
    roundtrip envI envE doc db = (db', Ok doc') /\
    ImportedData.version doc' = "1" /\
    ImportedData.message (ImportedData.data doc')
      ≡ₚ collapsed_message <$> ImportedData.message (ImportedData.data doc) /\
    ImportedData.summary (ImportedData.data doc')
      ≡ₚ collapsed_summary <$> ImportedData.summary (ImportedData.data doc).

(** What the export writes for a record whose dates are valid. *)
Definition iso_or_empty (d : Date) : string :=
  match d with
  | Some t => toISOString t
  | None => ""
  end.

Definition exported_message (message : DBMessage.t) : ImportedMessage.t :=
  {| ImportedMessage.id := DBMessage.id message;
     ImportedMessage.created_at := iso_or_empty (DBMessage.createdAt message);
     ImportedMessage.user_content := DBMessage.userContent message;
     ImportedMessage.assistant_content := DBMessage.assistantContent message;
     ImportedMessage.tokens_count := DBMessage.tokensCount message;
     ImportedMessage.summary_id :=
       sentinel_to_null (DBMessage.summaryId message) |}.

Definition exported_summary (summary : DBSummary.t) : ImportedSummary.t :=
  {| ImportedSummary.id := DBSummary.id summary;
     ImportedSummary.date_from := iso_or_empty (DBSummary.dateFrom summary);
     ImportedSummary.date_to := iso_or_empty (DBSummary.dateTo summary);
     ImportedSummary.content := DBSummary.content summary;
     ImportedSummary.level := DBSummary.level summary;
     ImportedSummary.tokens_count := DBSummary.tokensCount summary;
     ImportedSummary.parent_id :=
       sentinel_to_null (DBSummary.parentId summary) |}.

(** Every record sits under its own id, as in a store created with
    [keyPath: "id"]. *)
Definition keyed (db : DB) : Prop :=
  (forall k m, messageStore db !! k = Some m -> DBMessage.id m = k) /\
  (forall k s, summaryStore db !! k = Some s -> DBSummary.id s = k).

(** Every stored date is a valid date. *)
Definition dates_valid (db : DB) : Prop :=
  (forall k m, messageStore db !! k = Some m ->
     is_Some (DBMessage.createdAt m)) /\
  (forall k s, summaryStore db !! k = Some s ->
     is_Some (DBSummary.dateFrom s) /\ is_Some (DBSummary.dateTo s)).

(** [a] stands somewhere before [b] in [l]. *)
Definition appears_before {A : Type} (a b : A) (l : list A) : Prop :=
  exists l1 l2 l3, l = l1 ++ a :: l2 ++ b :: l3.

(** The earlier [importDataToIndexedDB] of [db.ts], which opens one
    read-write transaction and puts the summaries, then the messages,
    without clearing the stores. Its per-request [onerror] handlers only
    log, so a failed put still aborts the transaction. *)
Definition importDataToIndexedDB_without_clear (env : IDBEnv)
    (importedData : ImportedData.t) : M unit :=
  let convertedData := convertImportedData importedData in
  with_open env
    (transaction env
       (map put_summary (Converted.summary convertedData)
          ++ map put_message (Converted.message convertedData))).

(** Takes out of the context what the statement at hand does not mention
    of the surroundings, so that a proof depends on those it names only. *)
Ltac clear_surroundings :=
  try clear toISOString; try clear Date_parse;
  try clear createTextEmbedding; try clear createChatCompletion;
  try clear formatTimestamp.

(** ** Properties of the selector *)

Lemma ceil_half_least (n k : nat) : (ceil_half n <= k <-> n <= 2 * k)%nat.
Proof.
  unfold ceil_half.
  pose proof (Nat.div2_odd (n + 1)) as Hodd.
  destruct (Nat.odd (n + 1)); simpl in Hodd; lia.
Qed.

Lemma slice_snoc {A : Type} (l : list A) (s i : nat) (x : A) :
  (s <= i)%nat -> l !! i = Some x -> slice l s (S i) = slice l s i ++ [x].
Proof.
  intros Hle Hx. unfold slice.
  replace (S i - s)%nat with (S (i - s)) by lia.
  apply take_S_r. rewrite lookup_drop.
  replace (s + (i - s))%nat with i by lia. exact Hx.
Qed.

Lemma slice_one {A : Type} (l : list A) (i : nat) (x : A) :
  l !! i = Some x -> slice l i (S i) = [x].
Proof.
  intros Hx. rewrite (slice_snoc l i i x) by (lia || done).
  unfold slice. rewrite Nat.sub_diag. reflexivity.
Qed.

Lemma sum_tokens_app (l1 l2 : list ChatItem) :
  sum_tokens (l1 ++ l2) = sum_tokens l1 + sum_tokens l2.
Proof.
  induction l1 as [|x l1 IH]; simpl; [lia|]. rewrite IH. lia.
Qed.

Lemma runStart_le (chat : list ChatItem) (i : nat) : (runStart chat i <= i)%nat.
Proof.
  induction i as [|j IH]; simpl; [lia|]. case_decide; lia.
Qed.

Lemma runSum_first (chat : list ChatItem) (x : ChatItem) :
  chat !! 0%nat = Some x -> runSum chat 0 = currentTokens x.
Proof.
  intros Hx. unfold runSum. simpl runStart.
  rewrite (slice_one chat 0 x Hx). simpl. lia.
Qed.

Lemma runSum_extend (chat : list ChatItem) (j : nat) (x : ChatItem) :
  chat !! S j = Some x ->
  level_at chat (S j) = level_at chat j ->
  runSum chat (S j) = runSum chat j + currentTokens x.
Proof.
  intros Hx Hlev. unfold runSum. simpl runStart.
  rewrite decide_True by exact Hlev.
  rewrite (slice_snoc chat (runStart chat j) (S j) x).
  - rewrite sum_tokens_app. simpl. lia.
  - pose proof (runStart_le chat j). lia.
  - exact Hx.
Qed.

Lemma runSum_restart (chat : list ChatItem) (j : nat) (x : ChatItem) :
  chat !! S j = Some x ->
  level_at chat (S j) <> level_at chat j ->
  runSum chat (S j) = currentTokens x.
Proof.
  intros Hx Hlev. unfold runSum. simpl runStart.
  rewrite decide_False by exact Hlev.
  rewrite (slice_one chat (S j) x Hx). simpl. lia.
Qed.

(** Every item of a run has the level of the run's last item. *)
Lemma run_uniform (chat : list ChatItem) (i j : nat) :
  (runStart chat i <= j <= i)%nat -> level_at chat j = level_at chat i.
Proof.
  induction i as [|k IH]; simpl; intros Hj.
  - replace j with 0%nat by lia. reflexivity.
  - case_decide as Hlev.
    + destruct (decide (j = S k)) as [->|Hne]; [reflexivity|].
      rewrite Hlev. apply IH. lia.
    + replace j with (S k) by lia. reflexivity.
Qed.

(** A run cannot be extended to the left. *)
Lemma run_maximal (chat : list ChatItem) (i k : nat) :
  runStart chat i = S k -> level_at chat k <> level_at chat (S k).
Proof.
  induction i as [|j IH]; simpl; [discriminate|].
  case_decide as Hlev.
  - exact IH.
  - intros [= ->]. congruence.
Qed.

Lemma select_step_inv (chat : list ChatItem) (index : nat) (item : ChatItem)
    (st : SelectState) :
  chat !! index = Some item ->
  select_inv chat index st ->
  select_step index item st =
    {| startIndex := Some (runStart chat index); endIndex := None;
       level := level_at chat index; tokens := runSum chat index |}.
Proof.
  intros Hitem Hinv.
  assert (Hlev : level_at chat index = Some (currentLevel item))
    by (unfold level_at; rewrite Hitem; reflexivity).
  destruct index as [|j]; simpl in Hinv; subst st; unfold select_step; simpl.
  - rewrite (runSum_first chat item Hitem), Hlev. reflexivity.
  - rewrite <- Hlev. destruct (decide (level_at chat (S j) = level_at chat j)) as [Heq|Hne].
    + rewrite (runSum_extend chat j item Hitem Heq), Heq. reflexivity.
    + rewrite (runSum_restart chat j item Hitem Hne). reflexivity.
Qed.

Lemma select_loop_first (chat rest : list ChatItem) (index : nat)
    (st : SelectState) :
  drop index chat = rest ->
  select_inv chat index st ->
  match first_from (qualifies chat) index (length rest) with
  | Some i =>
      startIndex (select_loop rest index st) = Some (runStart chat i) /\
      endIndex (select_loop rest index st) =
        Some (runStart chat i + ceil_half (i - runStart chat i + 1))%nat
  | None => endIndex (select_loop rest index st) = None
  end.
Proof.
  revert index st. induction rest as [|item rest' IH]; intros index st Hdrop Hinv.
  - simpl. destruct index; simpl in Hinv; subst st; reflexivity.
  - assert (Hitem : chat !! index = Some item).
    { rewrite <- (Nat.add_0_r index), <- lookup_drop, Hdrop. reflexivity. }
    assert (Hrest : drop (S index) chat = rest').
    { replace (S index) with (index + 1)%nat by lia.
      rewrite <- drop_drop, Hdrop. reflexivity. }
    pose proof (select_step_inv chat index item st Hitem Hinv) as Hstep.
    simpl. rewrite Hstep. simpl.
    unfold qualifies at 1. rewrite (Z.mul_comm 2 MIN_SUMMARY_TOKENS).
    destruct (MIN_SUMMARY_TOKENS * 2 <=? runSum chat index) eqn:Hq.
    + simpl. split; reflexivity.
    + apply (IH (S index)); [exact Hrest|]. simpl. reflexivity.
Qed.

Lemma elem_of_slice {A : Type} (l : list A) (s e : nat) (x : A) :
  x ∈ slice l s e -> exists j, (s <= j < e)%nat /\ l !! j = Some x.
Proof.
  unfold slice. rewrite elem_of_take. intros (k & Hk & Hlt).
  rewrite lookup_drop in Hk. exists (s + k)%nat. split; [lia|exact Hk].
Qed.

Lemma slice_infix {A : Type} (l : list A) (s e : nat) :
  exists pre post, l = pre ++ slice l s e ++ post.
Proof.
  exists (take s l), (drop (e - s) (drop s l)). unfold slice.
  rewrite take_drop, take_drop. reflexivity.
Qed.

Lemma first_from_range (p : nat -> bool) (i n k : nat) :
  first_from p i n = Some k -> (i <= k < i + n)%nat /\ p k = true.
Proof.
  revert i. induction n as [|n IH]; intros i; simpl; [discriminate|].
  destruct (p i) eqn:Hp.
  - intros [= <-]. split; [lia|exact Hp].
  - intros Hk. destruct (IH _ Hk) as [Hr Hpk]. split; [lia|exact Hpk].
Qed.

Lemma first_from_least (p : nat -> bool) (i n k j : nat) :
  first_from p i n = Some k -> (i <= j < k)%nat -> p j = false.
Proof.
  revert i. induction n as [|n IH]; intros i; simpl; [discriminate|].
  destruct (p i) eqn:Hp.
  - intros [= <-] Hj. lia.
  - intros Hk Hj. destruct (decide (j = i)) as [->|Hne]; [exact Hp|].
    apply (IH (S i) Hk). lia.
Qed.

Lemma first_from_none (p : nat -> bool) (i n j : nat) :
  first_from p i n = None -> (i <= j < i + n)%nat -> p j = false.
Proof.
  revert i. induction n as [|n IH]; intros i; simpl; [lia|].
  destruct (p i) eqn:Hp; [discriminate|].
  intros Hk Hj. destruct (decide (j = i)) as [->|Hne]; [exact Hp|].
  apply (IH (S i) Hk). lia.
Qed.

Lemma selectMessagesForSummary_spec (chat : list ChatItem) :
  selectMessagesForSummary chat = select_spec chat.
Proof.
  unfold selectMessagesForSummary, select_spec, first_qualifying.
  pose proof (select_loop_first chat chat 0 select_init eq_refl eq_refl) as H.
  destruct (first_from (qualifies chat) 0 (length chat)) as [i|].
  - destruct H as [Hs He]. rewrite Hs, He. reflexivity.
  - rewrite H. destruct (startIndex _); reflexivity.
Qed.

Lemma selection_levels (chat : list ChatItem) (x y : ChatItem) :
  x ∈ selectMessagesForSummary chat ->
  y ∈ selectMessagesForSummary chat ->
  currentLevel x = currentLevel y.
Proof.
  rewrite selectMessagesForSummary_spec. unfold select_spec, first_qualifying.
  destruct (first_from (qualifies chat) 0 (length chat)) as [i|] eqn:Hi.
  - cbv zeta. intros Hx Hy.
    assert (Hhalf : (ceil_half (i - runStart chat i + 1)
                       <= i - runStart chat i + 1)%nat)
      by (apply ceil_half_least; lia).
    pose proof (runStart_le chat i) as Hle.
    apply elem_of_slice in Hx as (jx & Hjx & Hx).
    apply elem_of_slice in Hy as (jy & Hjy & Hy).
    assert (Hlx : level_at chat jx = level_at chat i)
      by (apply run_uniform; lia).
    assert (Hly : level_at chat jy = level_at chat i)
      by (apply run_uniform; lia).
    unfold level_at in Hlx, Hly. rewrite Hx in Hlx. rewrite Hy in Hly.
    rewrite <- Hly in Hlx. simpl in Hlx. congruence.
  - intros Hx. apply elem_of_nil in Hx. contradiction.
Qed.

(** An item that alone reaches the threshold at the head of the chat is
    the whole selection. *)
Lemma selection_heavy_head (a : ChatItem) (chat : list ChatItem) :
  2 * MIN_SUMMARY_TOKENS <= currentTokens a ->
  selectMessagesForSummary (a :: chat) = [a].
Proof.
  intros Ha. unfold selectMessagesForSummary. simpl.
  unfold select_step. simpl.
  destruct (MIN_SUMMARY_TOKENS * 2 <=? currentTokens a) eqn:Hq.
  - simpl. unfold slice. simpl. reflexivity.
  - apply Z.leb_gt in Hq. lia.
Qed.

Lemma design_runStart_eq (chat : list ChatItem) (i : nat) :
  design_runStart chat i = runStart chat i.
Proof.
  induction i as [|j IH]; simpl; [reflexivity|].
  change (item_level <$> chat !! S j) with (level_at chat (S j)).
  change (item_level <$> chat !! j) with (level_at chat j).
  rewrite IH. reflexivity.
Qed.

Lemma design_cost_sum (l : list ChatItem) :
  foldr Z.add 0 (item_cost <$> l) = sum_tokens l.
Proof.
  induction l as [|x l IH]; [reflexivity|].
  change (item_cost x + foldr Z.add 0 (item_cost <$> l)
          = currentTokens x + sum_tokens l).
  rewrite IH. destruct x; reflexivity.
Qed.

Lemma design_runSum_eq (chat : list ChatItem) (i : nat) :
  design_runSum chat i = runSum chat i.
Proof.
  unfold design_runSum, runSum, slice.
  rewrite design_cost_sum.
  change (design_runStart chat i) with (runStart chat i). reflexivity.
Qed.

Lemma half_up_eq (len : nat) : half_up len = ceil_half len.
Proof.
  unfold half_up, ceil_half. symmetry. apply Nat.div2_div.
Qed.

Lemma half_up_bounds (len : nat) : (len <= 2 * half_up len <= len + 1)%nat.
Proof.
  unfold half_up.
  pose proof (Nat.div_mod_eq (len + 1) 2) as Hdiv.
  pose proof (Nat.mod_upper_bound (len + 1) 2) as Hmod. lia.
Qed.

Lemma design_first_eq (chat : list ChatItem) :
  design_first chat = first_qualifying chat.
Proof.
  unfold design_first, first_qualifying.
  assert (Hext : forall n i,
             first_from (design_reached chat) i n
             = first_from (qualifies chat) i n).
  { induction n as [|n IH]; intros i; simpl; [reflexivity|].
    rewrite IH. unfold design_reached, qualifies.
    rewrite design_runSum_eq. reflexivity. }
  apply Hext.
Qed.

Lemma design_selection_eq (chat : list ChatItem) :
  selectMessagesForSummary chat = design_selection chat.
Proof.
  rewrite selectMessagesForSummary_spec.
  unfold design_selection, select_spec. rewrite design_first_eq.
  destruct (first_qualifying chat) as [i|]; [|reflexivity].
  cbv zeta. change (design_runStart chat i) with (runStart chat i).
  rewrite half_up_eq. unfold slice.
  replace (runStart chat i + ceil_half (i - runStart chat i + 1)
           - runStart chat i)%nat
    with (ceil_half (i - runStart chat i + 1)) by lia.
  reflexivity.
Qed.

(** C1. The selector is the scan of the design. For every chat it
    returns [design_selection], which is written from the design alone: an
    item's level is [0] for a message and the stored level for a summary;
    the run of the first index [i] whose run has reached [2 * B], with
    [B = MIN_SUMMARY_TOKENS = 4000], is the maximal block of one level that
    ends at [i], no earlier index having reached it; and the selection is
    the first [n] items of that run, where [len <= 2 * n <= len + 1], that
    is [n = ceil(len / 2)]. When no index reaches [2 * B], so for the empty
    chat, nothing is selected. For five messages of cost [B] each and
    growing timestamps, nothing is selected after the first message, and
    after the second the selection is the first message alone. After a
    summary of a stored level other than [0] and of cost 5000, three
    messages of cost 3000 form a run of their own: the sum restarts at the
    first message and the selection is the first two of the three. *)
Theorem selectMessagesForSummary_first_run :
  MIN_SUMMARY_TOKENS = B /\ B = 4000 /\
  (forall chat : list ChatItem,
      selectMessagesForSummary chat = design_selection chat) /\
  (forall (chat : list ChatItem) (i : nat),
      design_first chat = Some i ->
      let runStart := design_runStart chat i in
      let len := (i - runStart + 1)%nat in
      let n := length (selectMessagesForSummary chat) in
      (i < length chat)%nat /\
      2 * B <= design_runSum chat i /\
      (forall j, (j < i)%nat -> design_runSum chat j < 2 * B) /\
      (forall j, (runStart <= j <= i)%nat ->
                 (item_level <$> chat !! j) = (item_level <$> chat !! i)) /\
      (forall k, runStart = S k ->
                 (item_level <$> chat !! k) <> (item_level <$> chat !! S k)) /\
      (len <= 2 * n <= len + 1)%nat /\
      (forall k, (k < n)%nat ->
                 selectMessagesForSummary chat !! k = chat !! (runStart + k)%nat)) /\
  (forall chat : list ChatItem,
      design_first chat = None ->
      selectMessagesForSummary chat = [] /\
      forall j, (j < length chat)%nat -> design_runSum chat j < 2 * B) /\
  selectMessagesForSummary [] = [] /\
  (forall (m1 m2 m3 m4 m5 : ChatMessage.t) (t1 t2 t3 t4 t5 : Z),
      Forall (fun m => DBMessage.tokensCount (ChatMessage.record m) = B)
        [m1; m2; m3; m4; m5] ->
      (ChatMessage.timestamp <$> [m1; m2; m3; m4; m5])
        = (Some <$> [t1; t2; t3; t4; t5]) ->
      t1 < t2 < t3 /\ t3 < t4 < t5 ->
      selectMessagesForSummary [Message m1] = [] /\
      selectMessagesForSummary [Message m1; Message m2] = [Message m1] /\
      (Message m2 ∉ selectMessagesForSummary [Message m1; Message m2]) /\
      selectMessagesForSummary
        [Message m1; Message m2; Message m3; Message m4; Message m5]
        = [Message m1]) /\
  (forall (s : ChatSummary.t) (m1 m2 m3 : ChatMessage.t),
      DBSummary.level (ChatSummary.record s) <> 0 ->
      DBSummary.tokensCount (ChatSummary.record s) = 5000 ->
      Forall (fun m => DBMessage.tokensCount (ChatMessage.record m) = 3000)
        [m1; m2; m3] ->
      selectMessagesForSummary
        [Summary s; Message m1; Message m2; Message m3]
        = [Message m1; Message m2]).
Proof.
  split; [reflexivity|]. split; [reflexivity|].
  split; [exact design_selection_eq|]. split; [|split; [|split; [|split]]].
  - intros chat i Hi. cbv zeta.
    assert (Hq : first_qualifying chat = Some i)
      by (rewrite <- design_first_eq; exact Hi).
    unfold first_qualifying in Hq.
    destruct (first_from_range _ _ _ _ Hq) as [Hrange Hreached].
    apply Z.leb_le in Hreached.
    pose proof (runStart_le chat i) as Hle.
    pose proof (half_up_bounds (i - runStart chat i + 1)) as Hhalf.
    assert (Hsel : selectMessagesForSummary chat
                   = take (half_up (i - runStart chat i + 1))
                       (drop (runStart chat i) chat)).
    { rewrite design_selection_eq. unfold design_selection. rewrite Hi.
      reflexivity. }
    assert (Hlen : length (selectMessagesForSummary chat)
                   = half_up (i - runStart chat i + 1)).
    { rewrite Hsel, length_take, length_drop. lia. }
    change (design_runStart chat i) with (runStart chat i).
    rewrite design_runSum_eq, Hlen.
    split; [lia|]. split; [exact Hreached|]. split; [|split; [|split; [|split]]].
    + intros j Hj. rewrite design_runSum_eq. apply Z.leb_gt.
      apply (first_from_least _ _ _ _ j Hq). lia.
    + apply run_uniform.
    + apply run_maximal.
    + exact Hhalf.
    + intros k Hk. rewrite Hsel, lookup_take_lt by exact Hk.
      apply lookup_drop.
  - intros chat Hnone. split.
    + rewrite design_selection_eq. unfold design_selection.
      rewrite Hnone. reflexivity.
    + intros j Hj. rewrite design_runSum_eq. apply Z.leb_gt.
      rewrite design_first_eq in Hnone.
      apply (first_from_none _ _ _ j Hnone). lia.
  - reflexivity.
  - intros m1 m2 m3 m4 m5 t1 t2 t3 t4 t5 Hcost Hts Hlt.
    repeat (apply Forall_cons in Hcost as [? Hcost]).
    injection Hts as Ht1 Ht2 _ _ _.
    unfold selectMessagesForSummary, select_step. simpl.
    unfold select_step. simpl.
    repeat match goal with
           | H : DBMessage.tokensCount _ = _ |- _ => rewrite H
           end.
    simpl. unfold slice. simpl. repeat split.
    intros Hin. apply list_elem_of_singleton in Hin. injection Hin as Heq.
    rewrite <- Heq in Ht1. rewrite Ht1 in Ht2. injection Ht2 as Heq'. lia.
  - intros s m1 m2 m3 Hlevel Hs Hcost.
    apply Forall_cons in Hcost as [Hm1 Hcost].
    apply Forall_cons in Hcost as [Hm2 Hcost].
    apply Forall_cons in Hcost as [Hm3 _].
    set (lvl := DBSummary.level (ChatSummary.record s)) in *.
    assert (Hstep1 : select_step 0 (Summary s) select_init
                 = mkSelect (Some 0%nat) None (Some lvl) 5000).
    { unfold select_step. cbn. rewrite Hs. reflexivity. }
    assert (Hstep2 : select_step 1 (Message m1)
                   (mkSelect (Some 0%nat) None (Some lvl) 5000)
                 = mkSelect (Some 1%nat) None (Some 0) 3000).
    { unfold select_step. cbn [level currentLevel currentTokens].
      rewrite decide_False by congruence. rewrite Hm1. reflexivity. }
    assert (Hstep3 : select_step 2 (Message m2)
                   (mkSelect (Some 1%nat) None (Some 0) 3000)
                 = mkSelect (Some 1%nat) None (Some 0) 6000).
    { unfold select_step. cbn. rewrite Hm2. reflexivity. }
    assert (Hstep4 : select_step 3 (Message m3)
                   (mkSelect (Some 1%nat) None (Some 0) 6000)
                 = mkSelect (Some 1%nat) None (Some 0) 9000).
    { unfold select_step. cbn. rewrite Hm3. reflexivity. }
    unfold selectMessagesForSummary.
    cbn -[select_step]. rewrite Hstep1. cbn -[select_step].
    rewrite Hstep2. cbn -[select_step]. rewrite Hstep3. cbn -[select_step].
    rewrite Hstep4. reflexivity.
Qed.

(** C2. A selection is a contiguous block of the chat and its items share
    one level. On a chat of four items of levels 0, 1, 0, 1, each reaching
    twice the budget alone, the run restarts at every item and the
    selection is the first item. *)
Theorem selection_single_level :
  (forall chat : list ChatItem,
      (exists pre post, chat = pre ++ selectMessagesForSummary chat ++ post) /\
      (forall x y : ChatItem,
          x ∈ selectMessagesForSummary chat ->
          y ∈ selectMessagesForSummary chat ->
          currentLevel x = currentLevel y)) /\
  (forall a b c d : ChatItem,
      (currentLevel <$> [a; b; c; d]) = [0; 1; 0; 1] ->
      Forall (fun item => 2 * MIN_SUMMARY_TOKENS <= currentTokens item)
        [a; b; c; d] ->
      (runStart [a; b; c; d] <$> [0; 1; 2; 3]%nat) = [0; 1; 2; 3]%nat /\
      selectMessagesForSummary [a; b; c; d] = [a]).
Proof.
  split.
  - intros chat. split; [|apply selection_levels].
    unfold selectMessagesForSummary.
    destruct (startIndex _) as [s|]; [destruct (endIndex _) as [e|]|].
    + apply slice_infix.
    + exists chat, []. rewrite app_nil_r. reflexivity.
    + exists chat, []. rewrite app_nil_r. reflexivity.
  - intros a b c d Hlev Hcost. split.
    + injection Hlev as Ha Hb Hc Hd.
      unfold runStart, level_at. simpl. rewrite Ha, Hb, Hc, Hd. reflexivity.
    + apply selection_heavy_head.
      apply Forall_cons in Hcost as [Ha _]. exact Ha.
Qed.

(** ** Properties of the compactor *)

Lemma compress_loop_state (items : list ChatItem) (st st' : Compress.state) :
  compress_loop items st = Ok st' ->
  Compress.dateFrom st' =
    match Compress.dateFrom st with
    | Some d => Some d
    | None => spanStart <$> head items
    end /\
  Compress.dateTo st' =
    match last items with
    | Some x => Some (orderingTimestamp x)
    | None => Compress.dateTo st
    end /\
  Compress.level st' =
    match last items with
    | Some x => Some (currentLevel x)
    | None => Compress.level st
    end.
Proof.
  revert st. induction items as [|item items IH]; intros st Hloop.
  - injection Hloop as <-. destruct (Compress.dateFrom st); auto.
  - rewrite last_cons.
    destruct item as [m|s]; simpl in Hloop.
    + destruct (formatTimestamp _); simpl in Hloop; [|discriminate].
      apply IH in Hloop as (Hfrom & Hto & Hlev). simpl in *.
      rewrite Hfrom, Hto, Hlev.
      destruct (Compress.dateFrom st), (last items); auto.
    + destruct (formatTimestamp _); simpl in Hloop; [|discriminate].
      destruct (formatTimestamp _); simpl in Hloop; [|discriminate].
      apply IH in Hloop as (Hfrom & Hto & Hlev). simpl in *.
      rewrite Hfrom, Hto, Hlev.
      destruct (Compress.dateFrom st), (last items); auto.
Qed.

Lemma compress_loop_total (items : list ChatItem) (st : Compress.state) :
  Forall formats items -> is_Ok (compress_loop items st).
Proof.
  intros Hfmt. revert st.
  induction Hfmt as [|item items Hitem _ IH]; intros st.
  - exists st. reflexivity.
  - destruct item as [m|s]; simpl in *.
    + destruct Hitem as [ts ->]. simpl. apply IH.
    + destruct Hitem as [[from ->] [to ->]]. simpl. apply IH.
Qed.

(** What [compressMessages] returns when it returns a summary. *)
Lemma compressMessages_Ok (id : string) (slice : list ChatItem)
    (summary : ChatSummary.t) :
  compressMessages id slice = Ok summary ->
  exists first lst embedding,
    head slice = Some first /\ last slice = Some lst /\
    createTextEmbedding (DBSummary.content (ChatSummary.record summary))
      = Ok embedding /\
    summary =
      {| ChatSummary.timestamp := orderingTimestamp lst;
         ChatSummary.record :=
           {| DBSummary.id := id;
              DBSummary.dateFrom := spanStart first;
              DBSummary.dateTo := orderingTimestamp lst;
              DBSummary.content := DBSummary.content (ChatSummary.record summary);
              DBSummary.level := currentLevel lst + 1;
              DBSummary.tokensCount := total_tokens (usage embedding);
              DBSummary.parentId := "NULL" |} |}.
Proof.
  unfold compressMessages. intros H.
  destruct (compress_loop slice compress_init) as [st|] eqn:Hloop;
    simpl in H; [|discriminate].
  apply compress_loop_state in Hloop as (Hfrom & Hto & Hlev). simpl in *.
  rewrite Hfrom, Hto, Hlev in H.
  destruct (head slice) as [first|]; simpl in H; [|discriminate].
  destruct (last slice) as [lst|]; [|discriminate].
  destruct (createChatCompletion _) as [c|]; simpl in H; [|discriminate].
  destruct (first_choice_content c) as [text|]; simpl in H; [|discriminate].
  destruct (createTextEmbedding text) as [emb|] eqn:Hemb; simpl in H;
    [|discriminate].
  injection H as <-. exists first, lst, emb. simpl. auto.
Qed.

(** [compressMessages] returns a summary once its surroundings answer. *)
Lemma compressMessages_returns (id : string) (slice : list ChatItem)
    (st : Compress.state) (completion : OpenAICompletion) (text : string)
    (embedding : EmbeddingResponse) :
  slice <> [] ->
  compress_loop slice compress_init = Ok st ->
  createChatCompletion (compress_request (Compress.messagesText st))
    = Ok completion ->
  first_choice_content completion = Ok text ->
  createTextEmbedding text = Ok embedding ->
  exists summary,
    compressMessages id slice = Ok summary /\
    DBSummary.content (ChatSummary.record summary) = text /\
    DBSummary.tokensCount (ChatSummary.record summary)
      = total_tokens (usage embedding).
Proof.
  intros Hne Hloop Hc Ht He. unfold compressMessages. rewrite Hloop. simpl.
  apply compress_loop_state in Hloop as (Hfrom & Hto & Hlev). simpl in *.
  rewrite Hfrom, Hto, Hlev.
  destruct slice as [|x slice]; [congruence|]. simpl head. simpl option_map.
  rewrite last_cons. destruct (last slice);
    simpl; rewrite Hc; simpl; rewrite Ht; simpl; rewrite He; simpl; eauto.
Qed.

(** C3 (amended). For a non-empty slice whose items share the level [L],
    a summary returned by [compressMessages] has level [L + 1], [dateFrom]
    the start of the first item's span ([createdAt] of a message, [dateFrom]
    of a summary), [dateTo] the last item's ordering timestamp, the parent
    reference ["NULL"], and as token count the total the embedding provider
    reports for the condensed text alone; and a summary is returned as soon
    as formatting, the completion and the embedding succeed. *)
Theorem compressMessages_summary (id : string) (slice : list ChatItem)
    (first lst : ChatItem) (L : Z) :
  head slice = Some first ->
  last slice = Some lst ->
  Forall (fun item => currentLevel item = L) slice ->
  (forall summary : ChatSummary.t,
      compressMessages id slice = Ok summary ->
      let s := ChatSummary.record summary in
      DBSummary.level s = L + 1 /\
      DBSummary.dateFrom s = spanStart first /\
      DBSummary.dateTo s = orderingTimestamp lst /\
      DBSummary.parentId s = "NULL" /\
      exists embedding,
        createTextEmbedding (DBSummary.content s) = Ok embedding /\
        DBSummary.tokensCount s = total_tokens (usage embedding)) /\
  (forall st completion text embedding,
      compress_loop slice compress_init = Ok st ->
      createChatCompletion (compress_request (Compress.messagesText st))
        = Ok completion ->
      first_choice_content completion = Ok text ->
      createTextEmbedding text = Ok embedding ->
      exists summary,
        compressMessages id slice = Ok summary /\
        DBSummary.content (ChatSummary.record summary) = text /\
        DBSummary.tokensCount (ChatSummary.record summary)
          = total_tokens (usage embedding)).
Proof.
  intros Hfirst Hlast Hlevel. split.
  - intros summary Hok.
    apply compressMessages_Ok in Hok
      as (first' & lst' & embedding & Hf & Hl & Hemb & Hsum).
    rewrite Hfirst in Hf. injection Hf as <-.
    rewrite Hlast in Hl. injection Hl as <-.
    assert (HL : currentLevel lst = L).
    { apply (proj1 (Forall_forall _ _) Hlevel).
      apply last_Some in Hlast as [l' ->].
      apply elem_of_app. right. apply list_elem_of_singleton. reflexivity. }
    cbv zeta. rewrite Hsum at 1 2 3 4. simpl. rewrite HL.
    repeat split; try reflexivity.
    exists embedding. split; [exact Hemb|]. rewrite Hsum at 1. reflexivity.
  - intros st completion text embedding Hloop Hc Ht He.
    apply (compressMessages_returns id slice st completion text embedding);
      try assumption.
    intros ->. discriminate.
Qed.

(** C4 (amended). [compressMessages] does not compare the levels of the
    items it is given. It rejects the empty slice alone, with the error
    [Empty summary]; for any non-empty slice, of one level or not, it
    returns a summary as soon as formatting and the two providers succeed,
    and that summary's level is the last item's level plus one. *)
Theorem compressMessages_no_level_check (id : string) :
  compressMessages id [] = Err (Error "Empty summary") /\
  (forall (slice : list ChatItem) (lst : ChatItem),
      last slice = Some lst ->
      (forall summary : ChatSummary.t,
          compressMessages id slice = Ok summary ->
          DBSummary.level (ChatSummary.record summary) = currentLevel lst + 1) /\
      (Forall formats slice ->
       (forall req, exists completion,
             createChatCompletion req = Ok completion /\
             is_Ok (first_choice_content completion)) ->
       (forall text, is_Ok (createTextEmbedding text)) ->
       is_Ok (compressMessages id slice))).
Proof.
  split; [reflexivity|]. intros slice lst Hlast. split.
  - intros summary Hok.
    apply compressMessages_Ok in Hok
      as (first' & lst' & embedding & Hf & Hl & Hemb & Hsum).
    rewrite Hlast in Hl. injection Hl as <-. rewrite Hsum. reflexivity.
  - intros Hfmt Hcomp Hemb.
    destruct (compress_loop_total slice compress_init Hfmt) as [st Hloop].
    destruct (Hcomp (compress_request (Compress.messagesText st)))
      as (completion & Hc & text & Ht).
    destruct (Hemb text) as [embedding He].
    destruct (compressMessages_returns id slice st completion text embedding)
      as (summary & Hok & _); try assumption.
    + intros ->. discriminate.
    + exists summary. exact Hok.
Qed.

(** ** Properties of the store *)

Lemma put_all_snoc {A : Type} (key : A -> string) (l : list A) (x : A)
    (store : gmap string A) :
  put_all key (l ++ [x]) store = <[key x := x]> (put_all key l store).
Proof. unfold put_all. rewrite foldl_app. reflexivity. Qed.

Lemma put_all_lookup_other {A : Type} (key : A -> string) (l : list A)
    (store : gmap string A) (k : string) :
  k ∉ key <$> l -> put_all key l store !! k = store !! k.
Proof.
  clear_surroundings.
  induction l as [|x l IH] using rev_ind; intros Hk; [reflexivity|].
  rewrite put_all_snoc. rewrite fmap_app in Hk.
  rewrite lookup_insert_ne by (clear IH; set_solver). apply IH. set_solver.
Qed.

Lemma put_all_lookup_member {A : Type} (key : A -> string) (l : list A)
    (store : gmap string A) (x : A) :
  NoDup (key <$> l) -> x ∈ l -> put_all key l store !! key x = Some x.
Proof.
  induction l as [|y l IH] using rev_ind; intros Hnd Hx; [set_solver|].
  rewrite put_all_snoc. rewrite fmap_app in Hnd.
  apply NoDup_app in Hnd as (Hnd & Hdisj & _).
  apply elem_of_app in Hx as [Hx|Hx].
  - rewrite lookup_insert_ne; [apply IH; assumption|].
    intros Heq. apply (Hdisj (key x)); [|rewrite <- Heq; set_solver].
    apply list_elem_of_fmap. eauto.
  - apply list_elem_of_singleton in Hx as ->. apply lookup_insert_eq.
Qed.

Lemma put_all_lookup_present {A : Type} (key : A -> string) (l : list A)
    (store : gmap string A) (x : A) :
  x ∈ l -> exists y, put_all key l store !! key x = Some y /\ y ∈ l.
Proof.
  induction l as [|y l IH] using rev_ind; intros Hx; [set_solver|].
  rewrite put_all_snoc.
  destruct (decide (key y = key x)) as [Heq|Hne].
  - rewrite <- Heq, lookup_insert_eq. exists y. set_solver.
  - rewrite lookup_insert_ne by exact Hne.
    apply elem_of_app in Hx as [Hx|Hx]; [|set_solver].
    destruct (IH Hx) as (z & Hz & Hin). exists z. set_solver.
Qed.

Lemma put_all_lookup_Some {A : Type} (key : A -> string) (l : list A)
    (store : gmap string A) (k : string) (x : A) :
  put_all key l store !! k = Some x ->
  (x ∈ l /\ key x = k) \/ (store !! k = Some x /\ k ∉ key <$> l).
Proof.
  clear_surroundings.
  induction l as [|y l IH] using rev_ind; intros Hk.
  - right. split; [exact Hk|set_solver].
  - rewrite put_all_snoc in Hk.
    destruct (decide (key y = k)) as [Heq|Hne].
    + rewrite <- Heq, lookup_insert_eq in Hk. injection Hk as ->.
      left. split; [set_solver|exact Heq].
    + rewrite lookup_insert_ne in Hk by exact Hne.
      destruct (IH Hk) as [[Hin Hkey]|[Hst Hnot]].
      * left. split; [set_solver|exact Hkey].
      * right. split; [exact Hst|]. rewrite fmap_app. set_solver.
Qed.

Lemma apply_requests_puts (summaries : list DBSummary.t)
    (messages : list DBMessage.t) (db : DB) :
  apply_requests (map put_summary summaries ++ map put_message messages) db =
    {| summaryStore := put_all DBSummary.id summaries (summaryStore db);
       messageStore := put_all DBMessage.id messages (messageStore db) |}.
Proof.
  unfold apply_requests. rewrite foldl_app.
  assert (Hm : forall ms d,
             foldl (fun db r => apply_request r db) d (map put_message ms) =
               {| summaryStore := summaryStore d;
                  messageStore := put_all DBMessage.id ms (messageStore d) |}).
  { induction ms as [|m ms IH]; intros d; simpl; [destruct d; reflexivity|].
    rewrite IH. reflexivity. }
  assert (Hs : forall ss d,
             foldl (fun db r => apply_request r db) d (map put_summary ss) =
               {| summaryStore := put_all DBSummary.id ss (summaryStore d);
                  messageStore := messageStore d |}).
  { induction ss as [|x ss IH]; intros d; simpl; [destruct d; reflexivity|].
    rewrite IH. reflexivity. }
  rewrite Hs, Hm. reflexivity.
Qed.

Lemma run_requests_Ok (errs : nat -> option exn) (k : nat)
    (reqs : list IDBRequest) (db db' : DB) :
  run_requests errs k reqs db = Ok db' -> db' = apply_requests reqs db.
Proof.
  revert k db. induction reqs as [|r reqs IH]; intros k db; simpl.
  - intros [= ->]. reflexivity.
  - destruct (errs k); [discriminate|]. apply IH.
Qed.

Lemma run_requests_no_errors (errs : nat -> option exn) (k : nat)
    (reqs : list IDBRequest) (db : DB) :
  (forall i, errs i = None) ->
  run_requests errs k reqs db = Ok (apply_requests reqs db).
Proof.
  intros Herr. revert k db. induction reqs as [|r reqs IH]; intros k db; simpl.
  - reflexivity.
  - rewrite Herr. apply IH.
Qed.

(** A transaction is applied whole or not at all. *)
Lemma transaction_all_or_nothing (env : IDBEnv) (reqs : list IDBRequest)
    (db db' : DB) (r : result unit) :
  with_open env (transaction env reqs) db = (db', r) ->
  (r = Ok tt /\ db' = apply_requests reqs db) \/
  (exists e, r = Err e /\ db' = db).
Proof.
  unfold with_open, transaction.
  destruct (open_error env) as [e|].
  - intros [= <- <-]. right. eauto.
  - destruct (run_requests _ _ _ _) as [d|e] eqn:Hrun; intros [= <- <-].
    + left. split; [reflexivity|]. apply (run_requests_Ok _ _ _ _ _ Hrun).
    + right. eauto.
Qed.

Lemma transaction_no_errors (env : IDBEnv) (reqs : list IDBRequest) (db : DB) :
  no_errors env ->
  with_open env (transaction env reqs) db = (apply_requests reqs db, Ok tt).
Proof.
  intros [Hopen Hreq]. unfold with_open, transaction. rewrite Hopen.
  rewrite run_requests_no_errors by exact Hreq. reflexivity.
Qed.

Lemma replace_loop_lists (items : list ChatItem) (summary : ChatSummary.t)
    (messages : list DBMessage.t) (summaries : list DBSummary.t) :
  let id := DBSummary.id (ChatSummary.record summary) in
  replace_loop items summary messages summaries =
    (messages ++ ((fun m => with_summaryId m id) <$> slice_messages items),
     summaries ++ ((fun s => with_parentId s id) <$> slice_summaries items)).
Proof.
  cbv zeta. revert messages summaries.
  induction items as [|[m|s] items IH]; intros messages summaries; simpl.
  - rewrite !app_nil_r. reflexivity.
  - rewrite IH, <- app_assoc. reflexivity.
  - rewrite IH, <- app_assoc. reflexivity.
Qed.

Lemma updateData_all_or_nothing (env : IDBEnv) (summaries : list DBSummary.t)
    (messages : list DBMessage.t) (db db' : DB) (r : result unit) :
  updateData env summaries messages db = (db', r) ->
  (r = Ok tt /\
   db' = {| summaryStore := put_all DBSummary.id summaries (summaryStore db);
            messageStore := put_all DBMessage.id messages (messageStore db) |})
  \/ (exists e, r = Err e /\ db' = db).
Proof.
  unfold updateData. intros H.
  apply transaction_all_or_nothing in H as [[-> ->]|H]; [left|right; exact H].
  rewrite apply_requests_puts. auto.
Qed.

Lemma updateData_no_errors (env : IDBEnv) (summaries : list DBSummary.t)
    (messages : list DBMessage.t) (db : DB) :
  no_errors env ->
  updateData env summaries messages db =
    ({| summaryStore := put_all DBSummary.id summaries (summaryStore db);
        messageStore := put_all DBMessage.id messages (messageStore db) |},
     Ok tt).
Proof.
  intros Henv. unfold updateData.
  rewrite transaction_no_errors by exact Henv.
  rewrite apply_requests_puts. reflexivity.
Qed.

(** C5. [replaceMessages] writes the new summary and the reparented items
    in one transaction. Given a new summary with the ["NULL"] parent and an
    id of its own, and items with distinct ids, either the call succeeds
    and the store holds the summary as given, every message and summary of
    the slice with its parent reference set to the summary's id, and every
    other record as before; or it fails and the store is exactly what it
    was, so no record is reparented and the summary, absent before, is
    still absent. It succeeds when no step of the database use fails. *)
Theorem replaceMessages_atomic (env : IDBEnv) (items : list ChatItem)
    (summary : ChatSummary.t) (db db' : DB) (r : result unit) :
  let new := ChatSummary.record summary in
  let id := DBSummary.id new in
  DBSummary.parentId new = "NULL" ->
  NoDup (DBMessage.id <$> slice_messages items) ->
  NoDup (id :: (DBSummary.id <$> slice_summaries items)) ->
  summaryStore db !! id = None ->
  replaceMessages env items summary db = (db', r) ->
  ((r = Ok tt /\
    (exists stored, summaryStore db' !! id = Some stored /\
                    stored = new /\ DBSummary.parentId stored = "NULL") /\
    (forall m, m ∈ slice_messages items ->
       messageStore db' !! DBMessage.id m = Some (with_summaryId m id)) /\
    (forall s, s ∈ slice_summaries items ->
       summaryStore db' !! DBSummary.id s = Some (with_parentId s id)) /\
    (forall k, k ∉ DBMessage.id <$> slice_messages items ->
       messageStore db' !! k = messageStore db !! k) /\
    (forall k, k ∉ id :: (DBSummary.id <$> slice_summaries items) ->
       summaryStore db' !! k = summaryStore db !! k))
   \/
   (exists e, r = Err e /\ db' = db /\ summaryStore db' !! id = None)) /\
  (no_errors env -> r = Ok tt).
Proof.
  intros new id Hparent Hmsgs Hsums Hfresh Hrun.
  unfold replaceMessages in Hrun. rewrite replace_loop_lists in Hrun.
  fold new in Hrun. fold id in Hrun. simpl in Hrun. split.
  - apply updateData_all_or_nothing in Hrun as [[-> ->]|(e & -> & ->)];
      [left|right; eauto].
    set (ms := (fun m => with_summaryId m id) <$> slice_messages items).
    set (ss := new :: ((fun s => with_parentId s id) <$> slice_summaries items)).
    assert (Hmid : DBMessage.id <$> ms = DBMessage.id <$> slice_messages items).
    { unfold ms. rewrite <- list_fmap_compose. reflexivity. }
    assert (Hsid : DBSummary.id <$> ss
                   = id :: (DBSummary.id <$> slice_summaries items)).
    { unfold ss. rewrite fmap_cons, <- list_fmap_compose. reflexivity. }
    simpl. split; [reflexivity|]. split; [|repeat split].
    + exists new. split; [|split; [reflexivity|exact Hparent]].
      apply (put_all_lookup_member DBSummary.id ss _ new).
      * rewrite Hsid. exact Hsums.
      * unfold ss. set_solver.
    + intros m Hm.
      apply (put_all_lookup_member DBMessage.id ms _ (with_summaryId m id)).
      * rewrite Hmid. exact Hmsgs.
      * unfold ms. apply list_elem_of_fmap. eauto.
    + intros s Hs.
      apply (put_all_lookup_member DBSummary.id ss _ (with_parentId s id)).
      * rewrite Hsid. exact Hsums.
      * unfold ss. apply elem_of_cons. right.
        apply list_elem_of_fmap. eauto.
    + intros k Hk. apply (put_all_lookup_other DBMessage.id ms).
      rewrite Hmid. exact Hk.
    + intros k Hk. apply (put_all_lookup_other DBSummary.id ss).
      rewrite Hsid. exact Hk.
  - intros Henv. rewrite updateData_no_errors in Hrun by exact Henv.
    injection Hrun as _ <-. reflexivity.
Qed.

(** C8 (amended). Writing a record never fails because its id is taken:
    [updateData] uses [put], so whenever no step of the database use fails
    the write succeeds and the store holds the written message or summary
    under its id, in place of any record that had that id; the other
    records are as before. *)
Theorem updateData_overwrites (env : IDBEnv) (db : DB) :
  no_errors env ->
  (forall m : DBMessage.t,
      updateData env [] [m] db =
        ({| summaryStore := summaryStore db;
            messageStore := <[DBMessage.id m := m]> (messageStore db) |},
         Ok tt)) /\
  (forall s : DBSummary.t,
      updateData env [s] [] db =
        ({| summaryStore := <[DBSummary.id s := s]> (summaryStore db);
            messageStore := messageStore db |},
         Ok tt)).
Proof.
  intros Henv. split; intros x;
    rewrite updateData_no_errors by exact Henv; reflexivity.
Qed.


(** ** Properties of the assembler *)

Lemma sort_insert_Permutation {A : Type} (comparefn : A -> A -> option Z)
    (x : A) (l : list A) :
  sort_insert comparefn x l ≡ₚ x :: l.
Proof.
  induction l as [|y l IH]; simpl; [reflexivity|].
  destruct (comes_after (comparefn x y)); [|reflexivity].
  rewrite IH. apply Permutation_swap.
Qed.

Lemma sort_Permutation {A : Type} (comparefn : A -> A -> option Z)
    (l : list A) :
  sort comparefn l ≡ₚ l.
Proof.
  induction l as [|x l IH]; simpl; [reflexivity|].
  rewrite sort_insert_Permutation, IH. reflexivity.
Qed.

Lemma timestamp_le_trans (a b c : ChatItem) :
  timestamp_le a b -> timestamp_le b c -> timestamp_le a c.
Proof.
  intros (x & y & Hx & Hy & Hxy) (y' & z & Hy' & Hz & Hyz).
  rewrite Hy in Hy'. injection Hy' as <-.
  exists x, z. repeat split; [exact Hx|exact Hz|lia].
Qed.

Lemma compare_timestamp_cases (a b : ChatItem) :
  is_Some (timestamp a) -> is_Some (timestamp b) ->
  if comes_after (compare_timestamp a b)
  then timestamp_le b a else timestamp_le a b.
Proof.
  intros [x Hx] [y Hy]. unfold compare_timestamp, timestamp_le.
  rewrite Hx, Hy. simpl. destruct (0 <? x - y) eqn:Hcmp.
  - apply Z.ltb_lt in Hcmp. exists y, x. repeat split. lia.
  - apply Z.ltb_ge in Hcmp. exists x, y. repeat split. lia.
Qed.

Lemma sort_insert_sorted (x : ChatItem) (l : list ChatItem) :
  is_Some (timestamp x) ->
  Forall (fun item => is_Some (timestamp item)) l ->
  StronglySorted timestamp_le l ->
  StronglySorted timestamp_le (sort_insert compare_timestamp x l).
Proof.
  intros Hx Hvalid Hsorted.
  induction Hsorted as [|y l Hsorted IH Hy]; simpl.
  - repeat constructor.
  - apply Forall_cons in Hvalid as [Hyv Hvalid].
    pose proof (compare_timestamp_cases x y Hx Hyv) as Hcmp.
    destruct (comes_after (compare_timestamp x y)).
    + constructor; [apply IH; exact Hvalid|].
      rewrite sort_insert_Permutation. constructor; assumption.
    + constructor; [constructor; assumption|].
      constructor; [exact Hcmp|].
      eapply Forall_impl; [exact Hy|].
      intros z Hz. apply (timestamp_le_trans x y z); assumption.
Qed.

Lemma sort_sorted (l : list ChatItem) :
  Forall (fun item => is_Some (timestamp item)) l ->
  StronglySorted timestamp_le (sort compare_timestamp l).
Proof.
  induction 1 as [|x l Hx Hvalid IH]; simpl; [constructor|].
  apply sort_insert_sorted; [exact Hx| |exact IH].
  rewrite sort_Permutation. exact Hvalid.
Qed.

Lemma cursor_elem_of {A : Type} (store : gmap string A) (x : A) :
  x ∈ cursor store <-> exists k, store !! k = Some x.
Proof.
  unfold cursor. rewrite list_elem_of_fmap. split.
  - intros ([k y] & -> & Hin). exists k.
    rewrite merge_sort_Permutation in Hin.
    apply elem_of_map_to_list in Hin. exact Hin.
  - intros [k Hk]. exists (k, x). split; [reflexivity|].
    rewrite merge_sort_Permutation. apply elem_of_map_to_list. exact Hk.
Qed.

Lemma cursor_singleton {A : Type} (k : string) (x : A) :
  cursor ({[k := x]} : gmap string A) = [x].
Proof. unfold cursor. rewrite map_to_list_singleton. reflexivity. Qed.

Lemma getChat_Ok (envM envS : IDBEnv) (db db' : DB) (chat : list ChatItem) :
  getChat envM envS db = (db', Ok chat) ->
  db' = db /\
  chat = sort compare_timestamp
           (map messageItem
              (filter (fun m => DBMessage.summaryId m = "NULL")
                 (cursor (messageStore db)))
            ++ map summaryItem
                 (filter (fun s => DBSummary.parentId s = "NULL")
                    (cursor (summaryStore db)))).
Proof.
  unfold getChat, M_bind, getActiveMessages, getActiveSummaries, read_cursor,
    with_open, M_ret.
  destruct (open_error envM); [discriminate|].
  destruct (request_error envM 0%nat); [discriminate|].
  destruct (open_error envS); [discriminate|].
  destruct (request_error envS 0%nat); [discriminate|].
  intros [= <- <-]. split; reflexivity.
Qed.

Lemma getChat_no_errors (envM envS : IDBEnv) (db : DB) :
  no_errors envM -> no_errors envS ->
  exists chat, getChat envM envS db = (db, Ok chat).
Proof.
  intros [HoM HrM] [HoS HrS].
  unfold getChat, M_bind, getActiveMessages, getActiveSummaries, read_cursor,
    with_open, M_ret.
  rewrite HoM, HrM, HoS, HrS. eauto.
Qed.

Lemma cursor_Permutation {A : Type} (store : gmap string A) :
  cursor store ≡ₚ (map_to_list store).*2.
Proof. unfold cursor. rewrite merge_sort_Permutation. reflexivity. Qed.





(** ** Properties of the orchestrator *)

(** A successful [createCompletion] has put one new active message under
    the fresh id and has appended it to the chat. *)
Lemma createCompletion_Ok (env : IDBEnv) (id : string) (chat : list ChatItem)
    (text : string) (ts : Date) (db db1 : DB) (newChat : list ChatItem) :
  createCompletion env id chat text ts db = (db1, Ok newChat) ->
  exists newMessage : ChatMessage.t,
    newChat = chat ++ [Message newMessage] /\
    DBMessage.id (ChatMessage.record newMessage) = id /\
    DBMessage.createdAt (ChatMessage.record newMessage) = ts /\
    DBMessage.userContent (ChatMessage.record newMessage) = text /\
    DBMessage.summaryId (ChatMessage.record newMessage) = "NULL" /\
    db1 = {| summaryStore := summaryStore db;
             messageStore :=
               <[id := ChatMessage.record newMessage]> (messageStore db) |}.
Proof.
  unfold createCompletion, M_bind, M_lift, M_ret.
  destruct (transcript chat _) as [messages|]; [|discriminate].
  destruct (formatTimestamp ts) as [meta|]; [|discriminate].
  destruct (createChatCompletion _) as [resp|]; [|discriminate].
  destruct (first_choice_content resp) as [respText|]; [|discriminate].
  destruct (createTextEmbedding _) as [embedding|]; [|discriminate].
  destruct (updateData env [] _ db) as [d [[]|e]] eqn:Hput; [|discriminate].
  intros [= <- <-].
  apply updateData_all_or_nothing in Hput as [[_ ->]|(e & He & _)];
    [|discriminate].
  eexists. repeat split.
Qed.

(** A failed compaction pass has written nothing. *)
Lemma compressChat_Err (env : IDBEnv) (id : string) (chat : list ChatItem)
    (db db' : DB) (e : exn) :
  compressChat env id chat db = (db', Err e) -> db' = db.
Proof.
  unfold compressChat, M_bind, M_lift, M_ret.
  case_decide; [discriminate|].
  destruct (compressMessages id _) as [summary|e']; [|congruence].
  intros Hput. unfold replaceMessages in Hput.
  destruct (replace_loop _ _ _ _) as [messages summaries].
  apply updateData_all_or_nothing in Hput as [[Hr _]|(e' & _ & Hdb)];
    [discriminate|exact Hdb].
Qed.

(** C7 (amended). When the message has been persisted and the compaction
    pass then fails, the failure is not caught inside the pass: it leaves
    [execute] as a rejection, and it is [send], the caller, that catches it,
    logs it and alerts that sending failed, keeping the typed text. The
    persisted message is not undone: the store after the failure is the
    store [createCompletion] left, which holds the new message, active,
    under its id. *)
Theorem compaction_failure_keeps_message (env1 env2 : IDBEnv)
    (messageId summaryId : string) (chat : list ChatItem) (now : Z)
    (text : string) (db db1 db2 : DB) (newChat : list ChatItem) (e : exn) :
  createCompletion env1 messageId chat text (Some now) db = (db1, Ok newChat) ->
  compressChat env2 summaryId newChat db1 = (db2, Err e) ->
  execute env1 env2 messageId summaryId chat now text db = (db2, Err e) /\
  send env1 env2 messageId summaryId chat now text db =
    (db2, {| value := text; isSending := false;
             console_error := [("Failed to send message", e)];
             alerts := ["Ошибка при отправке сообщения"] |}) /\
  db2 = db1 /\
  exists newMessage : ChatMessage.t,
    newChat = chat ++ [Message newMessage] /\
    messageStore db2 !! messageId = Some (ChatMessage.record newMessage) /\
    DBMessage.createdAt (ChatMessage.record newMessage) = Some now /\
    DBMessage.userContent (ChatMessage.record newMessage) = text /\
    DBMessage.summaryId (ChatMessage.record newMessage) = "NULL".
Proof.
  intros Hcreate Hcompress.
  assert (Hexec : execute env1 env2 messageId summaryId chat now text db
                  = (db2, Err e)).
  { unfold execute, M_bind. rewrite Hcreate. exact Hcompress. }
  split; [exact Hexec|]. split; [unfold send; rewrite Hexec; reflexivity|].
  apply compressChat_Err in Hcompress as ->. split; [reflexivity|].
  apply createCompletion_Ok in Hcreate
    as (newMessage & Hchat & Hid & Hts & Htext & Hparent & ->).
  exists newMessage. simpl. rewrite lookup_insert_eq. auto.
Qed.

(** ** Properties of import and export *)

Lemma put_all_rows {A : Type} (key : A -> string) (l : list A) :
  NoDup (key <$> l) -> cursor (put_all key l ∅) ≡ₚ l.
Proof.
  rewrite cursor_Permutation.
  induction l as [|x l IH] using rev_ind; intros Hnd.
  - unfold put_all. simpl. rewrite map_to_list_empty. reflexivity.
  - rewrite fmap_app in Hnd. apply NoDup_app in Hnd as (Hnd & Hdisj & _).
    rewrite put_all_snoc, map_to_list_insert.
    + rewrite fmap_cons, (IH Hnd). simpl.
      rewrite Permutation_app_comm. reflexivity.
    + rewrite put_all_lookup_other; [apply lookup_empty|].
      intros Hin. apply (Hdisj _ Hin). set_solver.
Qed.

Lemma for_each_fmap {A B : Type} (f : A -> result B) (g : A -> B)
    (rows : list A) :
  Forall (fun x => f x = Ok (g x)) rows -> for_each f rows = Ok (g <$> rows).
Proof.
  induction 1 as [|x rows Hx _ IH]; simpl; [reflexivity|].
  rewrite Hx, IH. reflexivity.
Qed.

Lemma for_each_Ok {A B : Type} (f : A -> result B) (rows : list A)
    (out : list B) :
  for_each f rows = Ok out -> Forall (fun y => exists x, f x = Ok y) out.
Proof.
  revert out. induction rows as [|x rows IH]; intros out; simpl.
  - intros [= <-]. constructor.
  - destruct (f x) as [y|] eqn:Hy; simpl; [|discriminate].
    destruct (for_each f rows) as [ys|]; simpl; [|discriminate].
    intros [= <-]. constructor; [eauto|]. apply IH. reflexivity.
Qed.

Lemma sentinel_to_null_not_sentinel (s : string) :
  sentinel_to_null s <> Some "NULL".
Proof. unfold sentinel_to_null. case_decide; congruence. Qed.

Lemma sentinel_roundtrip (x : option string) :
  x <> Some "NULL" -> sentinel_to_null (null_to_sentinel x) = x.
Proof.
  intros Hx. destruct x as [s|]; simpl; [|reflexivity].
  unfold sentinel_to_null. case_decide; congruence.
Qed.

(** A parent reference written as the string ["NULL"] comes back as null. *)
Lemma sentinel_collapses :
  sentinel_to_null (null_to_sentinel (Some "NULL")) = None.
Proof. reflexivity. Qed.

Lemma export_message_valid (message : DBMessage.t) :
  is_Some (DBMessage.createdAt message) ->
  export_message message = Ok (exported_message message).
Proof.
  intros [t Ht]. unfold export_message, exported_message. rewrite Ht.
  reflexivity.
Qed.

Lemma export_summary_valid (summary : DBSummary.t) :
  is_Some (DBSummary.dateFrom summary) ->
  is_Some (DBSummary.dateTo summary) ->
  export_summary summary = Ok (exported_summary summary).
Proof.
  intros [t Ht] [u Hu]. unfold export_summary, exported_summary.
  rewrite Ht, Hu. reflexivity.
Qed.

Lemma canonical_valid (s : string) :
  is_Some (Date_parse s) -> iso_or_empty (Date_parse s) = canonical s.
Proof. intros [t Ht]. unfold canonical. rewrite Ht. reflexivity. Qed.

Lemma canonical_same_instant (s : string) :
  (forall t, Date_parse (toISOString t) = Some t) ->
  Date_parse (canonical s) = Date_parse s.
Proof.
  intros Hiso. unfold canonical.
  destruct (Date_parse s) as [t|] eqn:Ht; [|exact Ht].
  rewrite Hiso. reflexivity.
Qed.

Lemma exportDataFromIndexedDB_Ok (env : IDBEnv) (db db' : DB)
    (doc' : ImportedData.t) :
  exportDataFromIndexedDB env db = (db', Ok doc') ->
  db' = db /\
  ImportedData.version doc' = "1" /\
  for_each export_summary (cursor (summaryStore db))
    = Ok (ImportedData.summary (ImportedData.data doc')) /\
  for_each export_message (cursor (messageStore db))
    = Ok (ImportedData.message (ImportedData.data doc')).
Proof.
  unfold exportDataFromIndexedDB, with_open.
  destruct (open_error env); [discriminate|].
  destruct (request_error env 0%nat); [discriminate|].
  destruct (for_each export_summary _) as [summaries|]; simpl; [|discriminate].
  destruct (request_error env 1%nat); [discriminate|].
  destruct (for_each export_message _) as [messages|]; simpl; [|discriminate].
  intros [= <- <-]. auto.
Qed.

Lemma import_no_errors (env : IDBEnv) (doc : ImportedData.t) (db : DB) :
  no_errors env ->
  importDataToIndexedDB env doc db =
    ({| summaryStore :=
          put_all DBSummary.id (Converted.summary (convertImportedData doc)) ∅;
        messageStore :=
          put_all DBMessage.id (Converted.message (convertImportedData doc)) ∅ |},
     Ok tt).
Proof.
  intros Henv. unfold importDataToIndexedDB.
  rewrite transaction_no_errors by exact Henv.
  change (apply_requests ([clear_summary; clear_message] ++ ?reqs) db)
    with (apply_requests reqs {| summaryStore := ∅; messageStore := ∅ |}).
  rewrite apply_requests_puts. reflexivity.
Qed.

(** Exporting rows that came from converted records with valid dates. *)
Lemma for_each_converted {A R B : Type} (key : R -> string)
    (conv : A -> R) (f : R -> result B) (g : R -> B) (h : A -> B)
    (l : list A) :
  NoDup (key <$> (conv <$> l)) ->
  Forall (fun a => f (conv a) = Ok (g (conv a)) /\ g (conv a) = h a) l ->
  exists out,
    for_each f (cursor (put_all key (conv <$> l) ∅)) = Ok out /\
    out ≡ₚ h <$> l.
Proof.
  intros Hnd Hall.
  pose proof (put_all_rows key (conv <$> l) Hnd) as Hrows.
  exists (g <$> cursor (put_all key (conv <$> l) ∅)). split.
  - apply for_each_fmap. apply Forall_forall. intros r Hr.
    rewrite Hrows in Hr. apply list_elem_of_fmap in Hr as (a & -> & Ha).
    apply (proj1 (Forall_forall _ _) Hall a Ha).
  - rewrite Hrows, <- list_fmap_compose.
    assert (Heq : g ∘ conv <$> l = h <$> l).
    { apply Forall_fmap_ext_1.
      eapply Forall_impl; [exact Hall|]. intros a [_ Ha]. exact Ha. }
    rewrite Heq. reflexivity.
Qed.

Lemma sentinel_collapse (x : option string) :
  sentinel_to_null (null_to_sentinel x) = collapse_sentinel x.
Proof.
  unfold sentinel_to_null, collapse_sentinel.
  destruct x as [s|]; simpl; [|reflexivity].
  repeat case_decide; congruence.
Qed.

Lemma collapse_sentinel_keeps (x : option string) :
  x <> Some "NULL" -> collapse_sentinel x = x.
Proof. intros Hx. unfold collapse_sentinel. case_decide; congruence. Qed.

(** C9 (amended). Given that a date written by [toISOString] parses back
    to itself: for a well-formed document, importing and then exporting,
    with no step of the database failing, returns a document of version
    ["1"] whose arrays hold, in some order, the records of the imported
    one, every timestamp written by [toISOString] for the same instant, a
    null parent as null, a parent reference written as the string
    ["NULL"] as null as well, and every other field as it was. So when no
    parent reference of the document is the string ["NULL"], every field
    is preserved. Whatever the store holds, an exported parent reference
    is never the string ["NULL"]. *)
Theorem export_import_roundtrip :
  (forall t, Date_parse (toISOString t) = Some t) ->
  (forall (envI envE : IDBEnv) (doc : ImportedData.t) (db : DB),
      no_errors envI -> no_errors envE ->
      well_formed doc ->
      roundtrip_collapses envI envE doc db /\
      (no_sentinel_reference doc -> roundtrip_preserves envI envE doc db) /\
      Forall (fun m => Date_parse (ImportedMessage.created_at (normal_message m))
                       = Date_parse (ImportedMessage.created_at m))
        (ImportedData.message (ImportedData.data doc)) /\
      Forall (fun s => Date_parse (ImportedSummary.date_from (normal_summary s))
                       = Date_parse (ImportedSummary.date_from s) /\
                       Date_parse (ImportedSummary.date_to (normal_summary s))
                       = Date_parse (ImportedSummary.date_to s))
        (ImportedData.summary (ImportedData.data doc))) /\
  (forall m : ImportedMessage.t,
      (ImportedMessage.summary_id m = Some "NULL" ->
       ImportedMessage.summary_id (collapsed_message m) = None) /\
      (ImportedMessage.summary_id m <> Some "NULL" ->
       collapsed_message m = normal_message m)) /\
  (forall s : ImportedSummary.t,
      (ImportedSummary.parent_id s = Some "NULL" ->
       ImportedSummary.parent_id (collapsed_summary s) = None) /\
      (ImportedSummary.parent_id s <> Some "NULL" ->
       collapsed_summary s = normal_summary s)) /\
  (forall (env : IDBEnv) (db db' : DB) (doc' : ImportedData.t),
      exportDataFromIndexedDB env db = (db', Ok doc') ->
      Forall (fun m => ImportedMessage.summary_id m <> Some "NULL")
        (ImportedData.message (ImportedData.data doc')) /\
      Forall (fun s => ImportedSummary.parent_id s <> Some "NULL")
        (ImportedData.summary (ImportedData.data doc'))).
Proof.
  intros Hiso.
  assert (Hmessage : forall m : ImportedMessage.t,
             ImportedMessage.summary_id m <> Some "NULL" ->
             collapsed_message m = normal_message m).
  { intros m Hm. unfold collapsed_message, normal_message.
    rewrite collapse_sentinel_keeps by exact Hm. reflexivity. }
  assert (Hsummary : forall s : ImportedSummary.t,
             ImportedSummary.parent_id s <> Some "NULL" ->
             collapsed_summary s = normal_summary s).
  { intros s Hs. unfold collapsed_summary, normal_summary.
    rewrite collapse_sentinel_keeps by exact Hs. reflexivity. }
  split; [|split; [|split]].
  - intros envI envE doc db HI [HoE HrE]
      (Hmid & Hsid & Hmdate & Hsdate & _ & _).
    assert (Hcollapses : roundtrip_collapses envI envE doc db).
    { unfold roundtrip_collapses, roundtrip, M_bind.
      rewrite import_no_errors by exact HI.
      unfold exportDataFromIndexedDB, with_open. rewrite HoE, !HrE.
      cbn [summaryStore messageStore convertImportedData
           Converted.summary Converted.message].
      change (map convert_summary ?l) with (convert_summary <$> l).
      change (map convert_message ?l) with (convert_message <$> l).
      destruct (for_each_converted DBSummary.id convert_summary
                  export_summary exported_summary collapsed_summary
                  (ImportedData.summary (ImportedData.data doc)))
        as (ss & -> & Hss).
      { rewrite <- list_fmap_compose. exact Hsid. }
      { apply Forall_forall. intros s Hs.
        destruct (proj1 (Forall_forall _ _) Hsdate s Hs) as [Hfrom Hto].
        split.
        - apply export_summary_valid; assumption.
        - unfold exported_summary, collapsed_summary. simpl.
          rewrite !canonical_valid, sentinel_collapse by assumption.
          reflexivity. }
      destruct (for_each_converted DBMessage.id convert_message
                  export_message exported_message collapsed_message
                  (ImportedData.message (ImportedData.data doc)))
        as (ms & -> & Hms).
      { rewrite <- list_fmap_compose. exact Hmid. }
      { apply Forall_forall. intros m Hm.
        pose proof (proj1 (Forall_forall _ _) Hmdate m Hm) as Hdate.
        split.
        - apply export_message_valid; assumption.
        - unfold exported_message, collapsed_message. simpl.
          rewrite canonical_valid, sentinel_collapse by assumption.
          reflexivity. }
      simpl. do 2 eexists. split; [reflexivity|].
      split; [reflexivity|]. split; [exact Hms|exact Hss]. }
    split; [exact Hcollapses|]. split; [|split].
    + intros [Hmref Hsref].
      destruct Hcollapses as (db' & doc' & Hrun & Hversion & Hms & Hss).
      exists db', doc'. split; [exact Hrun|]. split; [exact Hversion|].
      split.
      * assert (Heq : collapsed_message
                        <$> ImportedData.message (ImportedData.data doc)
                      = normal_message
                          <$> ImportedData.message (ImportedData.data doc)).
        { apply Forall_fmap_ext_1.
          eapply Forall_impl; [exact Hmref|]. intros m Hm.
          apply Hmessage, Hm. }
        rewrite <- Heq. exact Hms.
      * assert (Heq : collapsed_summary
                        <$> ImportedData.summary (ImportedData.data doc)
                      = normal_summary
                          <$> ImportedData.summary (ImportedData.data doc)).
        { apply Forall_fmap_ext_1.
          eapply Forall_impl; [exact Hsref|]. intros s Hs.
          apply Hsummary, Hs. }
        rewrite <- Heq. exact Hss.
    + apply Forall_forall. intros m _. simpl.
      apply canonical_same_instant, Hiso.
    + apply Forall_forall. intros s _. simpl.
      split; apply canonical_same_instant, Hiso.
  - intros m. split; [|apply Hmessage].
    intros Hm. unfold collapsed_message. simpl. rewrite Hm. reflexivity.
  - intros s. split; [|apply Hsummary].
    intros Hs. unfold collapsed_summary. simpl. rewrite Hs. reflexivity.
  - intros env db db' doc' Hexp.
    apply exportDataFromIndexedDB_Ok in Hexp as (_ & _ & Hss & Hms).
    apply for_each_Ok in Hss. apply for_each_Ok in Hms. split.
    + eapply Forall_impl; [exact Hms|]. intros m (r & Hr).
      unfold export_message in Hr.
      destruct (Date_toISOString _); simpl in Hr; [|discriminate].
      injection Hr as <-. apply sentinel_to_null_not_sentinel.
    + eapply Forall_impl; [exact Hss|]. intros s (r & Hr).
      unfold export_summary in Hr.
      destruct (Date_toISOString _); simpl in Hr; [|discriminate].
      destruct (Date_toISOString _); simpl in Hr; [|discriminate].
      injection Hr as <-. apply sentinel_to_null_not_sentinel.
Qed.

(** ** Further properties of the selector *)

Lemma ceil_half_bounds (n : nat) :
  (n <= 2 * ceil_half n <= n + 1)%nat.
Proof.
  unfold ceil_half.
  pose proof (Nat.div2_odd (n + 1)) as Hodd.
  destruct (Nat.odd (n + 1)); simpl in Hodd; lia.
Qed.

Lemma length_slice {A : Type} (l : list A) (s e : nat) :
  (e <= length l)%nat -> length (slice l s e) = (e - s)%nat.
Proof.
  intros He. unfold slice. rewrite length_take, length_drop. lia.
Qed.

Lemma lookup_slice {A : Type} (l : list A) (s e k : nat) :
  (k < e - s)%nat -> slice l s e !! k = l !! (s + k)%nat.
Proof.
  intros Hk. unfold slice. rewrite lookup_take_lt by exact Hk.
  apply lookup_drop.
Qed.

Lemma slice_app_l {A : Type} (l more : list A) (s e : nat) :
  (s <= e <= length l)%nat -> slice (l ++ more) s e = slice l s e.
Proof.
  intros He. unfold slice. rewrite drop_app_le by lia.
  apply take_app_le. rewrite length_drop. lia.
Qed.

Lemma selection_subseteq (chat : list ChatItem) (x : ChatItem) :
  x ∈ selectMessagesForSummary chat -> x ∈ chat.
Proof.
  unfold selectMessagesForSummary.
  destruct (startIndex _) as [s|]; [destruct (endIndex _) as [e|]|];
    try (intros Hx; apply elem_of_nil in Hx; contradiction).
  intros Hx. apply elem_of_slice in Hx as (j & _ & Hj).
  apply (list_elem_of_lookup_2 _ j). exact Hj.
Qed.

(** X1. When some index qualifies, the selection is the older half of the
    run that reached the threshold, rounded up: it starts where the run
    starts, holds [ceil(len/2)] items, at least one, and when the run has
    two items or more the item at which the threshold was reached stays
    out of it. The selection is empty exactly when no index qualifies. *)
Theorem selection_older_half (chat : list ChatItem) :
  (forall i : nat,
      first_qualifying chat = Some i ->
      let start := runStart chat i in
      let len := (i - start + 1)%nat in
      length (selectMessagesForSummary chat) = ceil_half len /\
      (1 <= length (selectMessagesForSummary chat))%nat /\
      (len <= 2 * length (selectMessagesForSummary chat) <= len + 1)%nat /\
      (forall k, (k < ceil_half len)%nat ->
         selectMessagesForSummary chat !! k = chat !! (start + k)%nat) /\
      ((2 <= len)%nat ->
       (start + length (selectMessagesForSummary chat) <= i)%nat)) /\
  (selectMessagesForSummary chat = [] <-> first_qualifying chat = None).
Proof.
  assert (Hsome : forall i, first_qualifying chat = Some i ->
            (i < length chat)%nat /\
            selectMessagesForSummary chat =
              slice chat (runStart chat i)
                (runStart chat i + ceil_half (i - runStart chat i + 1)) /\
            length (selectMessagesForSummary chat)
              = ceil_half (i - runStart chat i + 1)).
  { intros i Hi. rewrite selectMessagesForSummary_spec. unfold select_spec.
    rewrite Hi. cbv zeta. unfold first_qualifying in Hi.
    destruct (first_from_range _ _ _ _ Hi) as [Hrange _].
    pose proof (runStart_le chat i) as Hle.
    pose proof (ceil_half_bounds (i - runStart chat i + 1)) as Hhalf.
    split; [lia|]. split; [reflexivity|]. rewrite length_slice; lia. }
  split.
  - intros i Hi. cbv zeta. destruct (Hsome i Hi) as (Hi' & Heq & Hlen).
    pose proof (ceil_half_bounds (i - runStart chat i + 1)) as Hhalf.
    pose proof (runStart_le chat i) as Hle.
    rewrite Hlen. repeat split; try lia.
    intros k Hk. rewrite Heq. apply lookup_slice. lia.
  - split.
    + intros Hnil. destruct (first_qualifying chat) as [i|] eqn:Hi;
        [|reflexivity].
      destruct (Hsome i eq_refl) as (_ & _ & Hlen).
      pose proof (ceil_half_bounds (i - runStart chat i + 1)) as Hhalf.
      rewrite Hnil in Hlen. simpl in Hlen. lia.
    + intros Hnone. rewrite selectMessagesForSummary_spec. unfold select_spec.
      rewrite Hnone. reflexivity.
Qed.

Lemma select_step_endIndex (index : nat) (item : ChatItem) (st : SelectState) :
  endIndex (select_step index item st) = endIndex st.
Proof. unfold select_step. case_decide; reflexivity. Qed.

Lemma select_loop_app (rest more : list ChatItem) (index : nat)
    (st : SelectState) :
  endIndex st = None ->
  endIndex (select_loop rest index st) <> None ->
  select_loop (rest ++ more) index st = select_loop rest index st.
Proof.
  revert index st. induction rest as [|item rest IH]; intros index st Hst Hend.
  - simpl in Hend. congruence.
  - simpl in *.
    destruct (startIndex (select_step index item st)) as [start|].
    + destruct (MIN_SUMMARY_TOKENS * 2 <=? tokens (select_step index item st));
        [reflexivity|].
      apply IH; [rewrite select_step_endIndex; exact Hst|exact Hend].
    + apply IH; [rewrite select_step_endIndex; exact Hst|exact Hend].
Qed.

(** X2. Once a chat has a selection, items that come after do not change
    it: the selector never looks past the index at which the first run
    reached the threshold. *)
Theorem selection_ignores_later_items (chat more : list ChatItem) :
  selectMessagesForSummary chat <> [] ->
  selectMessagesForSummary (chat ++ more) = selectMessagesForSummary chat.
Proof.
  intros Hne.
  pose proof (select_loop_first chat chat 0 select_init eq_refl eq_refl) as Hfirst.
  unfold selectMessagesForSummary in *.
  destruct (first_from (qualifies chat) 0 (length chat)) as [i|] eqn:Hi.
  - destruct Hfirst as [Hs He].
    rewrite select_loop_app by (try reflexivity; rewrite He; discriminate).
    rewrite Hs, He. apply slice_app_l.
    destruct (first_from_range _ _ _ _ Hi) as [Hrange _].
    pose proof (runStart_le chat i) as Hle.
    pose proof (ceil_half_bounds (i - runStart chat i + 1)) as Hhalf.
    lia.
  - rewrite Hfirst in Hne. destruct (startIndex _); congruence.
Qed.

Lemma sum_tokens_nonneg (l : list ChatItem) :
  Forall (fun item => 0 <= currentTokens item) l -> 0 <= sum_tokens l.
Proof.
  induction 1 as [|x l Hx _ IH]; simpl; lia.
Qed.

Lemma sum_tokens_slice_le (l : list ChatItem) (s e : nat) :
  Forall (fun item => 0 <= currentTokens item) l ->
  sum_tokens (slice l s e) <= sum_tokens l.
Proof.
  intros Hl. destruct (slice_infix l s e) as (pre & post & Heq).
  rewrite Heq in Hl at 1.
  apply Forall_app in Hl as [Hpre Hl]. apply Forall_app in Hl as [_ Hpost].
  rewrite Heq at 2. rewrite !sum_tokens_app.
  pose proof (sum_tokens_nonneg pre Hpre).
  pose proof (sum_tokens_nonneg post Hpost). lia.
Qed.

Lemma selection_below_threshold (chat : list ChatItem) :
  Forall (fun item => 0 <= currentTokens item) chat ->
  sum_tokens chat < 2 * MIN_SUMMARY_TOKENS ->
  selectMessagesForSummary chat = [].
Proof.
  intros Hnonneg Hsum. rewrite selectMessagesForSummary_spec.
  unfold select_spec, first_qualifying.
  destruct (first_from (qualifies chat) 0 (length chat)) as [i|] eqn:Hi;
    [|reflexivity].
  destruct (first_from_range _ _ _ _ Hi) as [_ Hq].
  unfold qualifies in Hq. apply Z.leb_le in Hq.
  pose proof (sum_tokens_slice_le chat (runStart chat i) (S i) Hnonneg) as Hle.
  unfold runSum in Hq. lia.
Qed.

(** X3. While the costs, none negative, of a chat add up to less than
    twice the budget, the compaction pass does nothing: nothing is
    selected, no provider is called, the store is not opened, and the pass
    ends well whatever the state of the providers and of the database. *)
Theorem compressChat_below_threshold (env : IDBEnv) (id : string)
    (chat : list ChatItem) (db : DB) :
  Forall (fun item => 0 <= currentTokens item) chat ->
  sum_tokens chat < 2 * MIN_SUMMARY_TOKENS ->
  selectMessagesForSummary chat = [] /\
  compressChat env id chat db = (db, Ok tt).
Proof.
  intros Hnonneg Hsum.
  pose proof (selection_below_threshold chat Hnonneg Hsum) as Hnil.
  split; [exact Hnil|]. unfold compressChat. rewrite Hnil. reflexivity.
Qed.

Lemma compaction_raises_level_aux (id : string) (chat : list ChatItem)
    (summary : ChatSummary.t) :
  compressMessages id (selectMessagesForSummary chat) = Ok summary ->
  forall item, item ∈ selectMessagesForSummary chat ->
    DBSummary.level (ChatSummary.record summary) = currentLevel item + 1.
Proof.
  intros Hok.
  apply compressMessages_Ok in Hok
    as (first & lst & embedding & Hfirst & Hlast & _ & Hsum).
  intros item Hitem. rewrite Hsum. simpl.
  assert (Hlst : lst ∈ selectMessagesForSummary chat).
  { apply last_Some in Hlast as [l' Hl']. rewrite Hl'.
    apply elem_of_app. right. apply list_elem_of_singleton. reflexivity. }
  rewrite (selection_levels chat item lst Hitem Hlst). reflexivity.
Qed.

(** X4. A summary made from what the selector chose is exactly one level
    above every item it was made from. *)
Theorem compaction_raises_level (id : string) (chat : list ChatItem)
    (summary : ChatSummary.t) :
  compressMessages id (selectMessagesForSummary chat) = Ok summary ->
  selectMessagesForSummary chat <> [] /\
  forall item, item ∈ selectMessagesForSummary chat ->
    DBSummary.level (ChatSummary.record summary) = currentLevel item + 1.
Proof.
  intros Hok. split; [|exact (compaction_raises_level_aux id chat summary Hok)].
  intros Hnil. rewrite Hnil in Hok. discriminate.
Qed.

(** ** Further properties of the store *)

Lemma put_all_is_Some {A : Type} (key : A -> string) (l : list A)
    (store : gmap string A) (k : string) :
  is_Some (store !! k) -> is_Some (put_all key l store !! k).
Proof.
  clear_surroundings.
  induction l as [|x l IH] using rev_ind; intros Hk; [exact Hk|].
  rewrite put_all_snoc. destruct (decide (key x = k)) as [<-|Hne].
  - rewrite lookup_insert_eq. eauto.
  - rewrite lookup_insert_ne by exact Hne. apply IH. exact Hk.
Qed.

Lemma put_all_cons_fresh {A : Type} (key : A -> string) (x : A) (l : list A)
    (store : gmap string A) :
  key x ∉ key <$> l -> put_all key (x :: l) store !! key x = Some x.
Proof.
  intros Hfresh. unfold put_all. simpl.
  change (put_all key l (<[key x := x]> store) !! key x = Some x).
  rewrite put_all_lookup_other by exact Hfresh. apply lookup_insert_eq.
Qed.

Lemma run_requests_Err (errs : nat -> option exn) (k : nat)
    (reqs : list IDBRequest) (db : DB) (e : exn) :
  run_requests errs k reqs db = Err e ->
  exists i, (k <= i < k + length reqs)%nat /\ errs i = Some e.
Proof.
  revert k db. induction reqs as [|r reqs IH]; intros k db; simpl.
  - discriminate.
  - destruct (errs k) as [e'|] eqn:Hk.
    + intros [= <-]. exists k. split; [lia|exact Hk].
    + intros Hrun. destruct (IH _ _ Hrun) as (i & Hi & He).
      exists i. split; [lia|exact He].
Qed.

Lemma transaction_Err (env : IDBEnv) (reqs : list IDBRequest) (db db' : DB)
    (e : exn) :
  with_open env (transaction env reqs) db = (db', Err e) ->
  db' = db /\
  (open_error env = Some e \/
   exists i, (i < length reqs)%nat /\ request_error env i = Some e).
Proof.
  unfold with_open, transaction.
  destruct (open_error env) as [e'|].
  - intros [= <- <-]. auto.
  - destruct (run_requests _ _ _ _) as [d|e'] eqn:Hrun; [discriminate|].
    intros [= <- <-]. split; [reflexivity|]. right.
    destruct (run_requests_Err _ _ _ _ _ Hrun) as (i & Hi & He).
    exists i. split; [lia|exact He].
Qed.

Lemma replaceMessages_Ok (env : IDBEnv) (items : list ChatItem)
    (summary : ChatSummary.t) (db db' : DB) :
  replaceMessages env items summary db = (db', Ok tt) ->
  let id := DBSummary.id (ChatSummary.record summary) in
  db' =
    {| summaryStore :=
         put_all DBSummary.id
           (ChatSummary.record summary
              :: ((fun s => with_parentId s id) <$> slice_summaries items))
           (summaryStore db);
       messageStore :=
         put_all DBMessage.id
           ((fun m => with_summaryId m id) <$> slice_messages items)
           (messageStore db) |}.
Proof.
  intros Hrun. cbv zeta. unfold replaceMessages in Hrun.
  rewrite replace_loop_lists in Hrun. simpl in Hrun.
  apply updateData_all_or_nothing in Hrun as [[_ ->]|(e & He & _)];
    [reflexivity|discriminate].
Qed.

(** X5. What a successful [replaceMessages] does to the active records,
    for a new summary that is active, has an id other than ["NULL"] and
    shares it with no summary of the slice: the active messages afterwards
    are the active messages from before whose id is not in the slice, and
    the active summaries afterwards are the new summary and the active
    summaries from before whose id is not in the slice. *)
Theorem replaceMessages_active_sets (env : IDBEnv) (items : list ChatItem)
    (summary : ChatSummary.t) (db db' : DB) :
  let new := ChatSummary.record summary in
  let id := DBSummary.id new in
  DBSummary.parentId new = "NULL" ->
  id <> "NULL" ->
  id ∉ DBSummary.id <$> slice_summaries items ->
  replaceMessages env items summary db = (db', Ok tt) ->
  (forall k m,
      (messageStore db' !! k = Some m /\ DBMessage.summaryId m = "NULL") <->
      (messageStore db !! k = Some m /\ DBMessage.summaryId m = "NULL" /\
       k ∉ DBMessage.id <$> slice_messages items)) /\
  (forall k s,
      (summaryStore db' !! k = Some s /\ DBSummary.parentId s = "NULL") <->
      ((k = id /\ s = new) \/
       (summaryStore db !! k = Some s /\ DBSummary.parentId s = "NULL" /\
        k <> id /\ k ∉ DBSummary.id <$> slice_summaries items))).
Proof.
  intros new id Hparent Hid Hfresh Hrun.
  apply replaceMessages_Ok in Hrun. cbv zeta in Hrun. fold new in Hrun.
  fold id in Hrun. subst db'. cbn [summaryStore messageStore].
  set (ms := (fun m => with_summaryId m id) <$> slice_messages items).
  set (rest := (fun s => with_parentId s id) <$> slice_summaries items).
  assert (Hmid : DBMessage.id <$> ms = DBMessage.id <$> slice_messages items)
    by (unfold ms; rewrite <- list_fmap_compose; reflexivity).
  assert (Hsid : DBSummary.id <$> rest = DBSummary.id <$> slice_summaries items)
    by (unfold rest; rewrite <- list_fmap_compose; reflexivity).
  split.
  - intros k m. split.
    + intros [Hk Hactive].
      apply put_all_lookup_Some in Hk as [[Hin _]|[Hk Hnot]].
      * apply list_elem_of_fmap in Hin as (m0 & -> & _). simpl in Hactive.
        congruence.
      * rewrite Hmid in Hnot. auto.
    + intros (Hk & Hactive & Hnot). split; [|exact Hactive].
      rewrite put_all_lookup_other by (rewrite Hmid; exact Hnot). exact Hk.
  - intros k s. split.
    + intros [Hk Hactive].
      apply put_all_lookup_Some in Hk as [[Hin Hkey]|[Hk Hnot]].
      * apply elem_of_cons in Hin as [->|Hin]; [left; auto|].
        apply list_elem_of_fmap in Hin as (s0 & -> & _). simpl in Hactive.
        congruence.
      * right. rewrite fmap_cons, Hsid in Hnot.
        apply not_elem_of_cons in Hnot as [Hne Hnot]. auto.
    + intros [[-> ->]|(Hk & Hactive & Hne & Hnot)].
      * split; [|exact Hparent].
        apply (put_all_cons_fresh DBSummary.id new rest).
        rewrite Hsid. exact Hfresh.
      * split; [|exact Hactive].
        rewrite put_all_lookup_other; [exact Hk|].
        rewrite fmap_cons, Hsid. apply not_elem_of_cons. auto.
Qed.

(** X6. [updateData] only ever puts: whether it succeeds or fails, every
    id that had a record before still has one after, and a record whose id
    is not among the written ones is the record it was. *)
Theorem updateData_never_deletes (env : IDBEnv) (summaries : list DBSummary.t)
    (messages : list DBMessage.t) (db : DB) :
  let db' := (updateData env summaries messages db).1 in
  (forall k, is_Some (messageStore db !! k) -> is_Some (messageStore db' !! k)) /\
  (forall k, is_Some (summaryStore db !! k) -> is_Some (summaryStore db' !! k)) /\
  (forall k, k ∉ DBMessage.id <$> messages ->
     messageStore db' !! k = messageStore db !! k) /\
  (forall k, k ∉ DBSummary.id <$> summaries ->
     summaryStore db' !! k = summaryStore db !! k).
Proof.
  cbv zeta.
  destruct (updateData env summaries messages db) as [db' r] eqn:Hrun.
  apply updateData_all_or_nothing in Hrun as [[_ ->]|(e & _ & ->)]; simpl.
  - repeat split.
    + apply put_all_is_Some.
    + apply put_all_is_Some.
    + intros k Hk. apply put_all_lookup_other. exact Hk.
    + intros k Hk. apply put_all_lookup_other. exact Hk.
  - auto.
Qed.

(** X7. An import that fails changes nothing, although its first two
    requests clear the stores: the store is what it was, and the error is
    the one of opening the database or of one of the requests made, the two
    clears and one put for each record of the document. An import whose
    database cannot be opened fails with that error. *)
Theorem import_failure_leaves_store (env : IDBEnv)
    (importedData : ImportedData.t) (db : DB) :
  (forall db' e,
      importDataToIndexedDB env importedData db = (db', Err e) ->
      db' = db /\
      (open_error env = Some e \/
       exists i,
         (i < 2 + length (ImportedData.summary (ImportedData.data importedData))
              + length (ImportedData.message (ImportedData.data importedData)))%nat /\
         request_error env i = Some e)) /\
  (forall e, open_error env = Some e ->
     importDataToIndexedDB env importedData db = (db, Err e)).
Proof.
  split.
  - intros db' e Hrun. unfold importDataToIndexedDB in Hrun.
    apply transaction_Err in Hrun as [-> Hcause]. split; [reflexivity|].
    destruct Hcause as [Hopen|(i & Hi & He)]; [left; exact Hopen|right].
    exists i. split; [|exact He].
    rewrite !length_app, !length_map in Hi. simpl in Hi.
    unfold convertImportedData in Hi. simpl in Hi.
    rewrite !length_map in Hi. lia.
  - intros e Hopen. unfold importDataToIndexedDB, with_open. rewrite Hopen.
    reflexivity.
Qed.

(** X8. The earlier importer, which does not clear the stores, merges: after
    it succeeds every record of the document has its id in the store, and
    every record whose id the document does not use is still there as it
    was. A failure leaves the store as it was. *)
Theorem import_without_clear_merges (env : IDBEnv)
    (importedData : ImportedData.t) (db : DB) :
  let converted := convertImportedData importedData in
  let out := importDataToIndexedDB_without_clear env importedData db in
  (out.2 = Ok tt ->
   (forall m, m ∈ Converted.message converted ->
      is_Some (messageStore out.1 !! DBMessage.id m)) /\
   (forall s, s ∈ Converted.summary converted ->
      is_Some (summaryStore out.1 !! DBSummary.id s)) /\
   (forall k, k ∉ DBMessage.id <$> Converted.message converted ->
      messageStore out.1 !! k = messageStore db !! k) /\
   (forall k, k ∉ DBSummary.id <$> Converted.summary converted ->
      summaryStore out.1 !! k = summaryStore db !! k)) /\
  (out.2 <> Ok tt -> out.1 = db).
Proof.
  cbv zeta. unfold importDataToIndexedDB_without_clear.
  destruct (with_open env _ db) as [db' r] eqn:Hrun.
  apply transaction_all_or_nothing in Hrun as [[-> ->]|(e & -> & ->)]; simpl.
  - split; [|congruence]. intros _. rewrite apply_requests_puts. simpl.
    repeat split.
    + intros m Hm.
      destruct (put_all_lookup_present DBMessage.id _ (messageStore db) m Hm)
        as (y & Hy & _).
      rewrite Hy. eauto.
    + intros s Hs.
      destruct (put_all_lookup_present DBSummary.id _ (summaryStore db) s Hs)
        as (y & Hy & _).
      rewrite Hy. eauto.
    + intros k Hk. apply put_all_lookup_other. exact Hk.
    + intros k Hk. apply put_all_lookup_other. exact Hk.
  - split; [discriminate|reflexivity].
Qed.

(** ** Further properties of import and export *)

Lemma cursor_keys {A : Type} (key : A -> string) (store : gmap string A) :
  (forall k x, store !! k = Some x -> key x = k) ->
  NoDup (key <$> cursor store).
Proof.
  clear_surroundings. intros Hkeyed.
  rewrite cursor_Permutation, <- list_fmap_compose.
  assert (Heq : key ∘ snd <$> map_to_list store = (map_to_list store).*1).
  { apply Forall_fmap_ext_1, Forall_forall. intros [k x] Hin. simpl.
    apply elem_of_map_to_list in Hin. apply (Hkeyed k x Hin). }
  rewrite Heq. apply NoDup_fst_map_to_list.
Qed.

(** Putting back the rows of a keyed store gives the store. *)
Lemma put_all_cursor {A : Type} (key : A -> string) (store : gmap string A) :
  (forall k x, store !! k = Some x -> key x = k) ->
  put_all key (cursor store) ∅ = store.
Proof.
  clear_surroundings. intros Hkeyed. apply map_eq. intros k.
  destruct (store !! k) as [x|] eqn:Hk.
  - rewrite <- (Hkeyed k x Hk).
    apply put_all_lookup_member; [apply cursor_keys; exact Hkeyed|].
    apply cursor_elem_of. eauto.
  - rewrite put_all_lookup_other; [apply lookup_empty|].
    intros Hin. apply list_elem_of_fmap in Hin as (x & -> & Hx).
    apply cursor_elem_of in Hx as [k' Hk'].
    rewrite (Hkeyed k' x Hk') in Hk. congruence.
Qed.

Lemma null_sentinel_roundtrip (s : string) :
  null_to_sentinel (sentinel_to_null s) = s.
Proof.
  unfold sentinel_to_null. case_decide as Hs; simpl; congruence.
Qed.

Lemma convert_exported_message (m : DBMessage.t) :
  (forall t, Date_parse (toISOString t) = Some t) ->
  is_Some (DBMessage.createdAt m) ->
  convert_message (exported_message m) = m.
Proof.
  intros Hiso [t Ht]. destruct m as [id createdAt u a n p]. simpl in Ht.
  subst createdAt. unfold convert_message, exported_message. simpl.
  rewrite Hiso, null_sentinel_roundtrip. reflexivity.
Qed.

Lemma convert_exported_summary (s : DBSummary.t) :
  (forall t, Date_parse (toISOString t) = Some t) ->
  is_Some (DBSummary.dateFrom s) -> is_Some (DBSummary.dateTo s) ->
  convert_summary (exported_summary s) = s.
Proof.
  intros Hiso [t Ht] [u Hu]. destruct s as [id from to c l n p].
  simpl in Ht, Hu. subst from to.
  unfold convert_summary, exported_summary. simpl.
  rewrite !Hiso, null_sentinel_roundtrip. reflexivity.
Qed.

(** X9. Backup and restore. Given that a date written by [toISOString]
    parses back to itself: from a store whose records sit under their ids
    and hold valid dates, the export succeeds, leaves the store as it is,
    and importing the exported document into any store whatever gives back
    exactly the exported store, parent references included. *)
Theorem import_export_restores (envE envI : IDBEnv) (db : DB) :
  (forall t, Date_parse (toISOString t) = Some t) ->
  no_errors envE -> no_errors envI ->
  keyed db -> dates_valid db ->
  exists doc,
    exportDataFromIndexedDB envE db = (db, Ok doc) /\
    forall db0, importDataToIndexedDB envI doc db0 = (db, Ok tt).
Proof.
  intros Hiso [HoE HrE] HI [Hkm Hks] [Hvm Hvs].
  assert (Hms : for_each export_message (cursor (messageStore db))
                = Ok (exported_message <$> cursor (messageStore db))).
  { apply for_each_fmap, Forall_forall. intros m Hm.
    apply cursor_elem_of in Hm as [k Hk].
    apply export_message_valid. apply (Hvm k m Hk). }
  assert (Hss : for_each export_summary (cursor (summaryStore db))
                = Ok (exported_summary <$> cursor (summaryStore db))).
  { apply for_each_fmap, Forall_forall. intros s Hs.
    apply cursor_elem_of in Hs as [k Hk].
    destruct (Hvs k s Hk) as [Hfrom Hto].
    apply export_summary_valid; assumption. }
  eexists. split.
  - unfold exportDataFromIndexedDB, with_open.
    rewrite HoE, !HrE, Hss, Hms. simpl. reflexivity.
  - intros db0. rewrite import_no_errors by exact HI.
    unfold convertImportedData. simpl.
    change (map convert_message ?l) with (convert_message <$> l).
    change (map convert_summary ?l) with (convert_summary <$> l).
    rewrite <- !list_fmap_compose.
    assert (Hm : convert_message ∘ exported_message <$> cursor (messageStore db)
                 = cursor (messageStore db)).
    { rewrite <- (list_fmap_id (cursor (messageStore db))) at 2.
      apply Forall_fmap_ext_1, Forall_forall. intros m Hm.
      apply cursor_elem_of in Hm as [k Hk]. simpl.
      apply convert_exported_message; [exact Hiso|apply (Hvm k m Hk)]. }
    assert (Hs : convert_summary ∘ exported_summary <$> cursor (summaryStore db)
                 = cursor (summaryStore db)).
    { rewrite <- (list_fmap_id (cursor (summaryStore db))) at 2.
      apply Forall_fmap_ext_1, Forall_forall. intros s Hs.
      apply cursor_elem_of in Hs as [k Hk]. simpl.
      destruct (Hvs k s Hk) as [Hfrom Hto].
      apply convert_exported_summary; assumption. }
    rewrite Hm, Hs.
    rewrite (put_all_cursor DBMessage.id _ Hkm).
    rewrite (put_all_cursor DBSummary.id _ Hks).
    destruct db. reflexivity.
Qed.

Lemma for_each_RangeError {A B : Type} (f : A -> result B) (rows : list A) :
  (forall x e, f x = Err e -> e = RangeError) ->
  (exists out, for_each f rows = Ok out /\
               Forall (fun x => is_Ok (f x)) rows) \/
  for_each f rows = Err RangeError.
Proof.
  clear_surroundings. intros Honly.
  induction rows as [|x rows IH]; simpl.
  - left. eexists. split; [reflexivity|constructor].
  - destruct (f x) as [y|e] eqn:Hx; simpl.
    + destruct IH as [(out & -> & Hall) | ->]; simpl.
      * left. eexists. split; [reflexivity|].
        constructor; [exists y; exact Hx|exact Hall].
      * right. reflexivity.
    + right. rewrite (Honly x e Hx). reflexivity.
Qed.

Lemma export_message_Err (m : DBMessage.t) (e : exn) :
  export_message m = Err e -> e = RangeError.
Proof.
  unfold export_message. destruct (DBMessage.createdAt m); simpl;
    [discriminate|congruence].
Qed.

Lemma export_summary_Err (s : DBSummary.t) (e : exn) :
  export_summary s = Err e -> e = RangeError.
Proof.
  unfold export_summary.
  destruct (DBSummary.dateFrom s); simpl; [|congruence].
  destruct (DBSummary.dateTo s); simpl; [discriminate|congruence].
Qed.

(** X10. The importer stores what the exporter cannot write. With no step
    of the database failing, a document with distinct message ids, one of
    whose messages has a timestamp that does not parse, is imported without
    complaint; every later export of that store fails with a RangeError. *)
Theorem export_rejects_imported_invalid_date (envI envE : IDBEnv)
    (doc : ImportedData.t) (db : DB) (m : ImportedMessage.t) :
  no_errors envI -> no_errors envE ->
  NoDup (ImportedMessage.id <$> ImportedData.message (ImportedData.data doc)) ->
  m ∈ ImportedData.message (ImportedData.data doc) ->
  Date_parse (ImportedMessage.created_at m) = None ->
  exists db1,
    importDataToIndexedDB envI doc db = (db1, Ok tt) /\
    exportDataFromIndexedDB envE db1 = (db1, Err RangeError).
Proof.
  intros HI [HoE HrE] Hnd Hm Hdate. eexists. split.
  - apply import_no_errors. exact HI.
  - unfold exportDataFromIndexedDB, with_open. rewrite HoE, !HrE.
    cbn [summaryStore messageStore].
    destruct (for_each_RangeError export_summary
                (cursor (put_all DBSummary.id
                           (Converted.summary (convertImportedData doc)) ∅))
                export_summary_Err) as [(ss & -> & _) | ->]; [|reflexivity].
    cbn [result_bind].
    destruct (for_each_RangeError export_message
                (cursor (put_all DBMessage.id
                           (Converted.message (convertImportedData doc)) ∅))
                export_message_Err) as [(ms & _ & Hall) | ->]; [|reflexivity].
    exfalso.
    assert (Hin : convert_message m
                  ∈ cursor (put_all DBMessage.id
                              (Converted.message (convertImportedData doc)) ∅)).
    { unfold convertImportedData. simpl.
      change (map convert_message ?l) with (convert_message <$> l).
      rewrite put_all_rows.
      - apply list_elem_of_fmap. eauto.
      - rewrite <- list_fmap_compose. exact Hnd. }
    destruct (proj1 (Forall_forall _ _) Hall _ Hin) as [y Hy].
    unfold export_message, convert_message in Hy. simpl in Hy.
    rewrite Hdate in Hy. discriminate.
Qed.

(** ** Further properties of the orchestrator *)

Lemma createCompletion_Err (env : IDBEnv) (id : string) (chat : list ChatItem)
    (text : string) (ts : Date) (db db' : DB) (e : exn) :
  createCompletion env id chat text ts db = (db', Err e) -> db' = db.
Proof.
  unfold createCompletion, M_bind, M_lift, M_ret.
  destruct (transcript chat _) as [messages|]; [|congruence].
  destruct (formatTimestamp ts) as [meta|]; [|congruence].
  destruct (createChatCompletion _) as [resp|]; [|congruence].
  destruct (first_choice_content resp) as [respText|]; [|congruence].
  destruct (createTextEmbedding _) as [embedding|]; [|congruence].
  destruct (updateData env [] _ db) as [d [[]|e']] eqn:Hput; [discriminate|].
  intros [= <- <-].
  apply updateData_all_or_nothing in Hput as [[Hr _]|(e'' & _ & Hdb)];
    [discriminate|exact Hdb].
Qed.

(** X11. A send that fails in [createCompletion] persists nothing, whatever
    failed: formatting, the completion, the embedding or the write. In
    particular a completion that carries no choice ends the call with a
    TypeError and an untouched store. *)
Theorem createCompletion_no_partial_message (env : IDBEnv) (id : string)
    (chat : list ChatItem) (text : string) (ts : Date) (db : DB) :
  (forall db' e,
      createCompletion env id chat text ts db = (db', Err e) -> db' = db) /\
  (is_Ok (transcript chat
            [ {| role := system; name := None;
                 content := CHAT_SYSTEM_PROPMT |} ]) ->
   is_Ok (formatTimestamp ts) ->
   (forall req, createChatCompletion req = Ok {| choices := [] |}) ->
   createCompletion env id chat text ts db = (db, Err TypeError)).
Proof.
  split.
  - intros db' e. apply createCompletion_Err.
  - intros [messages Hmessages] [meta Hmeta] Hempty.
    unfold createCompletion, M_bind, M_lift.
    rewrite Hmessages, Hmeta, Hempty. reflexivity.
Qed.

(** X12. A successful [createCompletion] adds one record and changes
    nothing else. The completion provider was asked once, with model
    ["gpt-4o"], temperature [1] and the transcript of the chat followed by
    the user's text under its time stamp, and the reply is the content of
    the first choice of what it answered. The chat returned is the chat
    given followed by the new message; the new message is active, carries
    the call's timestamp, the user's text and that reply, and costs what
    the embedding provider counts for the text and the reply joined by a
    blank line; the message store gains that record under the fresh id and
    the summary store is as it was. *)
Theorem createCompletion_appends_one_message (env : IDBEnv) (id : string)
    (chat : list ChatItem) (text : string) (ts : Date) (db db1 : DB)
    (newChat : list ChatItem) :
  createCompletion env id chat text ts db = (db1, Ok newChat) ->
  exists turns stamp completion choice rest embedding,
    transcript chat
      [ {| role := system; name := None; content := CHAT_SYSTEM_PROPMT |} ]
    = Ok turns /\
    formatTimestamp ts = Ok stamp /\
    createChatCompletion
      {| model := "gpt-4o"; temperature := 1;
         messages :=
           turns ++
             [ {| role := user; name := None;
                  content := ("[" +:+ stamp +:+ "]") +:+ nl2 +:+ text |} ] |}
    = Ok completion /\
    choices completion = choice :: rest /\
    let reply := content (message choice) in
    createTextEmbedding (text +:+ nl2 +:+ reply) = Ok embedding /\
    let record :=
      {| DBMessage.id := id;
         DBMessage.createdAt := ts;
         DBMessage.userContent := text;
         DBMessage.assistantContent := reply;
         DBMessage.tokensCount := total_tokens (usage embedding);
         DBMessage.summaryId := "NULL" |} in
    newChat =
      chat ++ [Message {| ChatMessage.record := record;
                          ChatMessage.timestamp := ts |}] /\
    messageStore db1 = <[id := record]> (messageStore db) /\
    summaryStore db1 = summaryStore db.
Proof.
  unfold createCompletion, M_bind, M_lift, M_ret.
  destruct (transcript chat _) as [turns|]; [|discriminate].
  destruct (formatTimestamp ts) as [stamp|]; [|discriminate].
  destruct (createChatCompletion _) as [resp|] eqn:Hresp; [|discriminate].
  unfold first_choice_content.
  destruct (choices resp) as [|choice rest] eqn:Hchoices; [discriminate|].
  destruct (createTextEmbedding _) as [embedding|] eqn:Hemb; [|discriminate].
  destruct (updateData env [] _ db) as [d [[]|e]] eqn:Hput; [|discriminate].
  intros [= <- <-].
  apply updateData_all_or_nothing in Hput as [[_ ->]|(e & He & _)];
    [|discriminate].
  exists turns, stamp, resp, choice, rest, embedding.
  split; [reflexivity|]. split; [reflexivity|]. split; [exact Hresp|].
  split; [exact Hchoices|]. cbv zeta. split; [exact Hemb|].
  repeat split.
Qed.

Lemma transcript_shape (chat : list ChatItem) (acc out : list OpenAIMessage) :
  transcript chat acc = Ok out ->
  exists turns,
    out = acc ++ turns /\
    length turns
      = (2 * length (slice_messages chat) + length (slice_summaries chat))%nat /\
    Forall (fun turn => role turn <> system) turns.
Proof.
  revert acc out. induction chat as [|[m|s] chat IH]; intros acc out; simpl.
  - intros [= <-]. exists []. rewrite app_nil_r. auto.
  - destruct (formatTimestamp _) as [ts|]; simpl; [|discriminate].
    intros Hrest. apply IH in Hrest as (turns & -> & Hlen & Hroles).
    eexists. split; [rewrite <- app_assoc; reflexivity|].
    split; [simpl; lia|]. repeat (constructor; [discriminate|]). exact Hroles.
  - destruct (formatTimestamp _) as [from|]; simpl; [|discriminate].
    destruct (formatTimestamp _) as [to|]; simpl; [|discriminate].
    intros Hrest. apply IH in Hrest as (turns & -> & Hlen & Hroles).
    eexists. split; [rewrite <- app_assoc; reflexivity|].
    split; [simpl; lia|]. repeat (constructor; [discriminate|]). exact Hroles.
Qed.

(** X13. The request behind a successful [createCompletion]: model
    [gpt-4o] at temperature 1, and as messages the system preamble, then
    two turns for every message of the chat and one for every summary, none
    of them a system message, then the user's text under the stamp of the
    call's time. *)
Theorem createCompletion_request (env : IDBEnv) (id : string)
    (chat : list ChatItem) (text : string) (ts : Date) (db db1 : DB)
    (newChat : list ChatItem) :
  createCompletion env id chat text ts db = (db1, Ok newChat) ->
  exists req turns stamp,
    is_Ok (createChatCompletion req) /\
    model req = "gpt-4o" /\ temperature req = 1 /\
    formatTimestamp ts = Ok stamp /\
    messages req =
      [ {| role := system; name := None; content := CHAT_SYSTEM_PROPMT |} ]
        ++ turns
        ++ [ {| role := user; name := None;
                content := ("[" +:+ stamp +:+ "]") +:+ nl2 +:+ text |} ] /\
    length turns
      = (2 * length (slice_messages chat) + length (slice_summaries chat))%nat /\
    Forall (fun turn => role turn <> system) turns.
Proof.
  unfold createCompletion, M_bind, M_lift, M_ret.
  destruct (transcript chat _) as [messages|] eqn:Htr; [|discriminate].
  destruct (formatTimestamp ts) as [stamp|]; [|discriminate].
  destruct (createChatCompletion _) as [resp|] eqn:Hreq; [|discriminate].
  intros _. apply transcript_shape in Htr as (turns & -> & Hlen & Hroles).
  eexists _, turns, stamp. split; [exists resp; exact Hreq|]. simpl.
  repeat split; assumption.
Qed.

Lemma compressChat_outcome (env : IDBEnv) (id : string) (chat : list ChatItem)
    (db db' : DB) (r : result unit) :
  compressChat env id chat db = (db', r) ->
  db' = db \/
  exists summary,
    compressMessages id (selectMessagesForSummary chat) = Ok summary /\
    replaceMessages env (selectMessagesForSummary chat) summary db
      = (db', Ok tt).
Proof.
  unfold compressChat, M_bind, M_lift, M_ret.
  case_decide; [intros [= <- _]; auto|].
  destruct (compressMessages id _) as [summary|e]; [|intros [= <- _]; auto].
  intros Hput. destruct r as [[]|e].
  - right. exists summary. auto.
  - left. unfold replaceMessages in Hput.
    destruct (replace_loop _ _ _ _) as [messages summaries].
    apply updateData_all_or_nothing in Hput as [[Hr _]|(e' & _ & Hdb)];
      [discriminate|exact Hdb].
Qed.

Lemma slice_messages_elem_of (items : list ChatItem) (m : DBMessage.t) :
  m ∈ slice_messages items <->
  exists cm, Message cm ∈ items /\ ChatMessage.record cm = m.
Proof.
  clear_surroundings. unfold slice_messages. rewrite list_elem_of_omap. split.
  - intros ([cm|s] & Hin & Heq); [|discriminate].
    injection Heq as <-. eauto.
  - intros (cm & Hin & <-). exists (Message cm). auto.
Qed.

(** X14. What a send leaves in the store, for a message id no message of
    the chat has. Either [createCompletion] failed and the store is as it
    was, or the store holds the new message under its id, with the user's
    text and the time of the call, whatever then became of the compaction
    pass; its parent reference is ["NULL"], or the id of the summary when
    the pass has folded the new message itself. *)
Theorem execute_outcome (env1 env2 : IDBEnv) (messageId summaryId : string)
    (chat : list ChatItem) (now : Z) (text : string) (db db' : DB)
    (r : result unit) :
  messageId ∉ DBMessage.id <$> slice_messages chat ->
  execute env1 env2 messageId summaryId chat now text db = (db', r) ->
  (exists e,
      createCompletion env1 messageId chat text (Some now) db = (db, Err e) /\
      r = Err e /\ db' = db) \/
  (exists m,
      messageStore db' !! messageId = Some m /\
      DBMessage.id m = messageId /\
      DBMessage.userContent m = text /\
      DBMessage.createdAt m = Some now /\
      (DBMessage.summaryId m = "NULL" \/ DBMessage.summaryId m = summaryId)).
Proof.
  intros Hfresh. unfold execute, M_bind.
  destruct (createCompletion env1 messageId chat text (Some now) db)
    as [db1 [newChat|e]] eqn:Hcreate.
  - intros Hcompress. right.
    apply createCompletion_Ok in Hcreate
      as (new & -> & Hid & Hts & Htext & Hparent & ->).
    apply compressChat_outcome in Hcompress as [->|(summary & Hsum & Hput)].
    + exists (ChatMessage.record new). simpl. rewrite lookup_insert_eq.
      repeat split; auto.
    + apply compressMessages_Ok in Hsum
        as (first & lst & embedding & _ & _ & _ & Hsummary).
      apply replaceMessages_Ok in Hput. cbv zeta in Hput. subst db'.
      cbn [messageStore].
      match goal with
      | |- context [put_all DBMessage.id ?l ?store] =>
          destruct (put_all_is_Some DBMessage.id l store messageId)
            as [y Hy]; [rewrite lookup_insert_eq; eauto|]
      end.
      exists y. split; [exact Hy|].
      apply put_all_lookup_Some in Hy as [[Hin Hkey]|[Hy _]].
      * apply list_elem_of_fmap in Hin as (m0 & -> & Hm0). simpl in Hkey.
        apply slice_messages_elem_of in Hm0 as (cm & Hcm & <-).
        apply selection_subseteq, elem_of_app in Hcm as [Hcm|Hcm].
        -- exfalso. apply Hfresh. rewrite <- Hkey.
           apply list_elem_of_fmap. exists (ChatMessage.record cm).
           split; [reflexivity|]. apply slice_messages_elem_of. eauto.
        -- apply list_elem_of_singleton in Hcm. injection Hcm as ->.
           simpl. rewrite Hsummary. simpl. repeat split; auto.
      * rewrite lookup_insert_eq in Hy. injection Hy as <-.
        repeat split; auto.
  - intros [= <- <-]. left. exists e.
    rewrite (createCompletion_Err _ _ _ _ _ _ _ _ Hcreate) in *. auto.
Qed.

(** ** Further properties of the assembler and of the summary's span *)

Lemma appears_before_cons {A : Type} (x a b : A) (l : list A) :
  appears_before a b l -> appears_before a b (x :: l).
Proof.
  intros (l1 & l2 & l3 & ->). exists (x :: l1), l2, l3. reflexivity.
Qed.

Lemma appears_before_head {A : Type} (a b : A) (l : list A) :
  b ∈ l -> appears_before a b (a :: l).
Proof.
  intros Hb. apply list_elem_of_split in Hb as (l2 & l3 & ->).
  exists [], l2, l3. reflexivity.
Qed.

Lemma appears_before_inv {A : Type} (a b x : A) (l : list A) :
  appears_before a b (x :: l) -> (a = x /\ b ∈ l) \/ appears_before a b l.
Proof.
  clear_surroundings. intros ([|y l1] & l2 & l3 & Heq); simpl in Heq.
  - injection Heq as -> ->. left. split; [reflexivity|].
    apply elem_of_app. right. apply elem_of_cons. left. reflexivity.
  - injection Heq as -> ->. right. exists l1, l2, l3. reflexivity.
Qed.

Lemma sort_insert_keeps_order {A : Type} (comparefn : A -> A -> option Z)
    (x a b : A) (l : list A) :
  appears_before a b l -> appears_before a b (sort_insert comparefn x l).
Proof.
  induction l as [|y l IH]; intros Hab.
  - destruct Hab as ([|? ?] & ? & ? & Heq); discriminate.
  - simpl. destruct (comes_after (comparefn x y)).
    + apply appears_before_inv in Hab as [[-> Hb]|Hab].
      * apply appears_before_head. rewrite sort_insert_Permutation.
        apply elem_of_cons. right. exact Hb.
      * apply appears_before_cons, IH, Hab.
    + apply appears_before_cons, Hab.
Qed.

Lemma comes_after_later (x y : ChatItem) :
  comes_after (compare_timestamp x y) = true -> ~ timestamp_le x y.
Proof.
  unfold compare_timestamp, timestamp_le.
  destruct (timestamp x) as [tx|], (timestamp y) as [ty|]; simpl;
    try discriminate.
  intros Hlt (tx' & ty' & [= <-] & [= <-] & Hle).
  apply Z.ltb_lt in Hlt. lia.
Qed.

Lemma sort_insert_before (x b : ChatItem) (l : list ChatItem) :
  b ∈ l -> timestamp_le x b -> StronglySorted timestamp_le l ->
  appears_before x b (sort_insert compare_timestamp x l).
Proof.
  clear_surroundings. intros Hb Hxb Hsorted.
  induction Hsorted as [|y l Hsorted IH Hy]; [apply elem_of_nil in Hb as []|].
  simpl. destruct (comes_after (compare_timestamp x y)) eqn:Hcmp.
  - apply appears_before_cons, IH.
    apply elem_of_cons in Hb as [->|Hb]; [|exact Hb].
    destruct (comes_after_later x y Hcmp Hxb).
  - apply appears_before_head, Hb.
Qed.

(** The sort is stable: two items that are in order already keep their
    relative position. *)
Lemma sort_keeps_order (a b : ChatItem) (l : list ChatItem) :
  Forall (fun item => is_Some (timestamp item)) l ->
  appears_before a b l -> timestamp_le a b ->
  appears_before a b (sort compare_timestamp l).
Proof.
  intros Hvalid Hab Hle.
  induction Hvalid as [|x l Hx Hvalid IH]; simpl.
  - destruct Hab as ([|? ?] & ? & ? & Heq); discriminate.
  - apply appears_before_inv in Hab as [[-> Hb]|Hab].
    + apply sort_insert_before; [|exact Hle|apply sort_sorted, Hvalid].
      rewrite sort_Permutation. exact Hb.
    + apply sort_insert_keeps_order, IH, Hab.
Qed.

(** X15. How [getChat] orders a message and a summary. When the timestamps
    of the chat are valid dates, an active message stands before every
    active summary whose [dateTo] is not earlier than its [createdAt]; so
    on equal timestamps the message comes first. *)
Theorem getChat_message_before_summary (envM envS : IDBEnv) (db db' : DB)
    (chat : list ChatItem) (m : DBMessage.t) (s : DBSummary.t) (t t' : Z) :
  getChat envM envS db = (db', Ok chat) ->
  Forall (fun item => is_Some (timestamp item)) chat ->
  active_message db m -> active_summary db s ->
  DBMessage.createdAt m = Some t -> DBSummary.dateTo s = Some t' ->
  t <= t' ->
  appears_before (messageItem m) (summaryItem s) chat.
Proof.
  intros Hget Hvalid (km & Hkm & Hm) (ks & Hks & Hs) Ht Ht' Hle.
  apply getChat_Ok in Hget as [_ ->].
  rewrite sort_Permutation in Hvalid.
  apply sort_keeps_order; [exact Hvalid| |].
  - assert (Him : messageItem m
                  ∈ map messageItem
                      (filter (fun m => DBMessage.summaryId m = "NULL")
                         (cursor (messageStore db)))).
    { apply (list_elem_of_fmap_2 messageItem), list_elem_of_filter.
      split; [exact Hm|]. apply cursor_elem_of. eauto. }
    assert (His : summaryItem s
                  ∈ map summaryItem
                      (filter (fun s => DBSummary.parentId s = "NULL")
                         (cursor (summaryStore db)))).
    { apply (list_elem_of_fmap_2 summaryItem), list_elem_of_filter.
      split; [exact Hs|]. apply cursor_elem_of. eauto. }
    apply list_elem_of_split in Him as (l1 & l2 & ->).
    apply list_elem_of_split in His as (l3 & l4 & ->).
    exists l1, (l2 ++ l3), l4. rewrite <- !app_assoc. reflexivity.
  - exists t, t'. simpl. auto.
Qed.

Lemma selection_infix (chat : list ChatItem) :
  exists pre post, chat = pre ++ selectMessagesForSummary chat ++ post.
Proof.
  unfold selectMessagesForSummary.
  destruct (startIndex _) as [s|]; [destruct (endIndex _) as [e|]|].
  - apply slice_infix.
  - exists chat, []. rewrite app_nil_r. reflexivity.
  - exists chat, []. rewrite app_nil_r. reflexivity.
Qed.

(** X16. The span of a new summary, for a chat in ascending order of
    timestamps in which every item is ordered by its [createdAt] or
    [dateTo] and no span ends before it starts: the summary made from the
    selection has a [dateFrom] not after its [dateTo]; its [dateFrom] is
    where the first selected item starts ([createdAt] of a message,
    [dateFrom] of a summary); its [dateTo] is the ordering timestamp of the
    last selected item, and no selected item has a later one. *)
Theorem compaction_span (id : string) (chat : list ChatItem)
    (summary : ChatSummary.t) :
  StronglySorted timestamp_le chat ->
  Forall (fun item => timestamp item = orderingTimestamp item) chat ->
  Forall (fun item => exists a b,
              spanStart item = Some a /\ orderingTimestamp item = Some b /\
              a <= b) chat ->
  compressMessages id (selectMessagesForSummary chat) = Ok summary ->
  exists a b,
    DBSummary.dateFrom (ChatSummary.record summary) = Some a /\
    DBSummary.dateTo (ChatSummary.record summary) = Some b /\
    a <= b /\
    (forall item, item ∈ selectMessagesForSummary chat ->
       exists t, orderingTimestamp item = Some t /\ t <= b) /\
    (exists first, head (selectMessagesForSummary chat) = Some first /\
                   spanStart first = Some a) /\
    (exists lst, last (selectMessagesForSummary chat) = Some lst /\
                 lst ∈ selectMessagesForSummary chat /\
                 orderingTimestamp lst = Some b).
Proof.
  intros Hsorted Hordered Hspans Hok.
  apply compressMessages_Ok in Hok
    as (first & lst & embedding & Hfirst & Hlast & _ & Hsum).
  destruct (selection_infix chat) as (pre & post & Hchat).
  set (sel := selectMessagesForSummary chat) in *.
  pose proof Hfirst as Hhead. pose proof Hlast as Htail.
  assert (Hsub : forall item, item ∈ sel -> item ∈ chat).
  { intros item Hitem. rewrite Hchat. rewrite !elem_of_app. auto. }
  assert (Hsel : StronglySorted timestamp_le sel).
  { rewrite Hchat in Hsorted.
    apply StronglySorted_app_1_r, StronglySorted_app_1_l in Hsorted.
    exact Hsorted. }
  apply last_Some in Hlast as [front Hfront].
  assert (Hlst : lst ∈ sel).
  { rewrite Hfront. apply elem_of_app. right.
    apply list_elem_of_singleton. reflexivity. }
  destruct (proj1 (Forall_forall _ _) Hspans lst (Hsub lst Hlst))
    as (la & b & _ & Hb & _).
  assert (Hlatest : forall item, item ∈ sel ->
            exists t, orderingTimestamp item = Some t /\ t <= b).
  { intros item Hitem. rewrite Hfront in Hitem.
    apply elem_of_app in Hitem as [Hitem|Hitem].
    - rewrite Hfront in Hsel.
      assert (Hle : timestamp_le item lst).
      { apply (StronglySorted_app_1_elem_of _ _ _ _ _ Hsel Hitem).
        apply list_elem_of_singleton. reflexivity. }
      destruct Hle as (x & y & Hx & Hy & Hxy).
      assert (Hin : item ∈ sel)
        by (rewrite Hfront; apply elem_of_app; left; exact Hitem).
      rewrite (proj1 (Forall_forall _ _) Hordered item (Hsub item Hin)) in Hx.
      rewrite (proj1 (Forall_forall _ _) Hordered lst (Hsub lst Hlst)) in Hy.
      rewrite Hb in Hy. injection Hy as <-. eauto.
    - apply list_elem_of_singleton in Hitem as ->. exists b.
      split; [exact Hb|lia]. }
  assert (Hfst : first ∈ sel).
  { destruct sel as [|x sel']; [discriminate|].
    injection Hfirst as ->. apply elem_of_cons. left. reflexivity. }
  destruct (proj1 (Forall_forall _ _) Hspans first (Hsub first Hfst))
    as (a & c & Ha & Hc & Hac).
  destruct (Hlatest first Hfst) as (c' & Hc' & Hcb).
  rewrite Hc in Hc'. injection Hc' as <-.
  exists a, b. rewrite Hsum. simpl.
  split; [exact Ha|]. split; [exact Hb|]. split; [lia|].
  split; [exact Hlatest|]. split.
  - exists first. split; [exact Hhead|exact Ha].
  - exists lst. split; [exact Htail|]. split; [exact Hlst|exact Hb].
Qed.

(** ** The compaction pass as a whole, and duplicate ids on import *)

Lemma slice_summaries_elem_of (items : list ChatItem) (s : DBSummary.t) :
  s ∈ slice_summaries items <->
  exists cs, Summary cs ∈ items /\ ChatSummary.record cs = s.
Proof.
  clear_surroundings. unfold slice_summaries. rewrite list_elem_of_omap. split.
  - intros ([m|cs] & Hin & Heq); [discriminate|].
    injection Heq as <-. eauto.
  - intros (cs & Hin & <-). exists (Summary cs). auto.
Qed.

(** X17. A compaction pass that ends well on a chat with a non-empty
    selection, given a summary id other than ["NULL"] that no summary of
    the chat has: the store then holds, under that id, an active summary
    one level above every selected item, and every selected message and
    summary has a record under its id whose parent reference is the new
    summary's id. *)
Theorem compressChat_compacts_selection (env : IDBEnv) (id : string)
    (chat : list ChatItem) (db db' : DB) :
  id <> "NULL" ->
  id ∉ DBSummary.id <$> slice_summaries chat ->
  selectMessagesForSummary chat <> [] ->
  compressChat env id chat db = (db', Ok tt) ->
  exists new : DBSummary.t,
    summaryStore db' !! id = Some new /\
    DBSummary.id new = id /\
    DBSummary.parentId new = "NULL" /\
    (forall item, item ∈ selectMessagesForSummary chat ->
       DBSummary.level new = currentLevel item + 1) /\
    (forall m, m ∈ slice_messages (selectMessagesForSummary chat) ->
       exists stored, messageStore db' !! DBMessage.id m = Some stored /\
                      DBMessage.summaryId stored = id) /\
    (forall s, s ∈ slice_summaries (selectMessagesForSummary chat) ->
       exists stored, summaryStore db' !! DBSummary.id s = Some stored /\
                      DBSummary.parentId stored = id).
Proof.
  intros Hid Hfresh Hne Hrun.
  unfold compressChat, M_bind, M_lift, M_ret in Hrun.
  case_decide as Hlen;
    [destruct (selectMessagesForSummary chat); [congruence|discriminate]|].
  destruct (compressMessages id _) as [summary|e] eqn:Hsum; [|discriminate].
  pose proof (compaction_raises_level_aux id chat summary Hsum) as Hlevel.
  apply replaceMessages_Ok in Hrun. cbv zeta in Hrun.
  apply compressMessages_Ok in Hsum
    as (first & lst & embedding & _ & _ & _ & Hsummary).
  assert (Hnew : DBSummary.id (ChatSummary.record summary) = id)
    by (rewrite Hsummary; reflexivity).
  assert (Hparent : DBSummary.parentId (ChatSummary.record summary) = "NULL")
    by (rewrite Hsummary; reflexivity).
  rewrite Hnew in Hrun. subst db'. cbn [summaryStore messageStore].
  set (sel := selectMessagesForSummary chat) in *.
  assert (Hfresh' : id ∉ DBSummary.id <$> slice_summaries sel).
  { intros Hin. apply Hfresh.
    apply list_elem_of_fmap in Hin as (s & -> & Hs).
    apply list_elem_of_fmap. exists s. split; [reflexivity|].
    apply slice_summaries_elem_of in Hs as (cs & Hcs & <-).
    apply slice_summaries_elem_of. exists cs.
    split; [apply selection_subseteq; exact Hcs|reflexivity]. }
  set (ms := (fun m => with_summaryId m id) <$> slice_messages sel).
  set (rest := (fun s => with_parentId s id) <$> slice_summaries sel).
  assert (Hrest : DBSummary.id <$> rest = DBSummary.id <$> slice_summaries sel)
    by (unfold rest; rewrite <- list_fmap_compose; reflexivity).
  exists (ChatSummary.record summary). split; [|split; [|split; [|split; [|split]]]].
  - pose proof (put_all_cons_fresh DBSummary.id (ChatSummary.record summary)
                  rest (summaryStore db)) as Hstored.
    rewrite Hnew, Hrest in Hstored. apply Hstored. exact Hfresh'.
  - exact Hnew.
  - exact Hparent.
  - exact Hlevel.
  - intros m Hm.
    destruct (put_all_lookup_present DBMessage.id ms (messageStore db)
                (with_summaryId m id)) as (y & Hy & Hin).
    { unfold ms. apply list_elem_of_fmap. eauto. }
    exists y. split; [exact Hy|].
    unfold ms in Hin. apply list_elem_of_fmap in Hin as (m0 & -> & _).
    reflexivity.
  - intros s Hs.
    destruct (put_all_lookup_present DBSummary.id
                (ChatSummary.record summary :: rest) (summaryStore db)
                (with_parentId s id)) as (y & Hy & _).
    { apply elem_of_cons. right. unfold rest. apply list_elem_of_fmap. eauto. }
    exists y. split; [exact Hy|].
    apply put_all_lookup_Some in Hy as [[Hin Hkey]|[_ Hnot]].
    + apply elem_of_cons in Hin as [->|Hin].
      * exfalso. apply Hfresh'.
        assert (Heq : id = DBSummary.id s) by (rewrite <- Hnew; exact Hkey).
        rewrite Heq. apply list_elem_of_fmap. eauto.
      * unfold rest in Hin. apply list_elem_of_fmap in Hin as (s0 & -> & _).
        reflexivity.
    + exfalso. apply Hnot. rewrite fmap_cons. apply elem_of_cons. right.
      rewrite Hrest. apply list_elem_of_fmap. exists s. auto.
Qed.

Lemma put_all_last_wins {A : Type} (key : A -> string) (l1 l2 : list A)
    (x : A) (store : gmap string A) :
  key x ∉ key <$> l2 ->
  put_all key (l1 ++ x :: l2) store !! key x = Some x.
Proof.
  intros Hlater. unfold put_all. rewrite foldl_app.
  apply (put_all_cons_fresh key x l2). exact Hlater.
Qed.

(** X18. Duplicate ids in a document. After a successful import, a record
    of the document that no later record of its array shares its id with is
    the one the store holds under that id: of several records with one id,
    the last one wins. *)
Theorem import_last_record_wins (env : IDBEnv) (importedData : ImportedData.t)
    (db db' : DB) :
  importDataToIndexedDB env importedData db = (db', Ok tt) ->
  (forall l1 m l2,
      ImportedData.message (ImportedData.data importedData) = l1 ++ m :: l2 ->
      ImportedMessage.id m ∉ ImportedMessage.id <$> l2 ->
      messageStore db' !! ImportedMessage.id m = Some (convert_message m)) /\
  (forall l1 s l2,
      ImportedData.summary (ImportedData.data importedData) = l1 ++ s :: l2 ->
      ImportedSummary.id s ∉ ImportedSummary.id <$> l2 ->
      summaryStore db' !! ImportedSummary.id s = Some (convert_summary s)).
Proof.
  intros Hrun. unfold importDataToIndexedDB in Hrun.
  apply transaction_all_or_nothing in Hrun as [[_ ->]|(e & He & _)];
    [|discriminate].
  change (apply_requests ([clear_summary; clear_message] ++ ?reqs) db)
    with (apply_requests reqs {| summaryStore := ∅; messageStore := ∅ |}).
  rewrite apply_requests_puts. unfold convertImportedData.
  cbn [summaryStore messageStore Converted.summary Converted.message].
  change (map convert_message ?l) with (convert_message <$> l).
  change (map convert_summary ?l) with (convert_summary <$> l).
  split.
  - intros l1 m l2 -> Hlater. rewrite fmap_app, fmap_cons.
    apply (put_all_last_wins DBMessage.id _ _ (convert_message m)).
    rewrite <- list_fmap_compose. exact Hlater.
  - intros l1 s l2 -> Hlater. rewrite fmap_app, fmap_cons.
    apply (put_all_last_wins DBSummary.id _ _ (convert_summary s)).
    rewrite <- list_fmap_compose. exact Hlater.
Qed.

End Engine.

(** ** The properties on examples *)

Lemma decimal_clock (t : Z) :
  decimal_Date_parse (decimal_toISOString t) = Some t.
Proof.
  unfold decimal_Date_parse, decimal_toISOString.
  rewrite NilEmpty.isi. simpl. rewrite DecimalZ.of_to. reflexivity.
Qed.

Lemma idb_ok_no_errors : no_errors idb_ok.
Proof. split; reflexivity. Qed.

Lemma selectMessagesForSummary_first_run_witness :
  selectMessagesForSummary
    [Message (journal_entry "m1" 1 4000); Message (journal_entry "m2" 2 4000)]
  = [Message (journal_entry "m1" 1 4000)] /\
  selectMessagesForSummary
    [Summary (digest "s1" 1 2 1 5000); Message (journal_entry "m1" 3 3000);
     Message (journal_entry "m2" 4 3000); Message (journal_entry "m3" 5 3000)]
  = [Message (journal_entry "m1" 3 3000); Message (journal_entry "m2" 4 3000)] /\
  design_runStart
    [Summary (digest "s1" 1 2 1 5000); Message (journal_entry "m1" 3 3000);
     Message (journal_entry "m2" 4 3000); Message (journal_entry "m3" 5 3000)]
    3 = 1%nat /\
  (3 <= 2 * length
          (selectMessagesForSummary
             [Summary (digest "s1" 1 2 1 5000);
              Message (journal_entry "m1" 3 3000);
              Message (journal_entry "m2" 4 3000);
              Message (journal_entry "m3" 5 3000)]) <= 4)%nat.
Proof.
  destruct selectMessagesForSummary_first_run
    as (_ & _ & _ & Hfirst & _ & _ & Hscenario & Hrestart).
  split; [|split; [|split]].
  - apply (Hscenario (journal_entry "m1" 1 4000) (journal_entry "m2" 2 4000)
             (journal_entry "m3" 3 4000) (journal_entry "m4" 4 4000)
             (journal_entry "m5" 5 4000) 1 2 3 4 5).
    + repeat constructor.
    + reflexivity.
    + lia.
  - apply (Hrestart (digest "s1" 1 2 1 5000) (journal_entry "m1" 3 3000)
             (journal_entry "m2" 4 3000) (journal_entry "m3" 5 3000)).
    + discriminate.
    + reflexivity.
    + repeat constructor.
  - reflexivity.
  - apply (Hfirst
             [Summary (digest "s1" 1 2 1 5000);
              Message (journal_entry "m1" 3 3000);
              Message (journal_entry "m2" 4 3000);
              Message (journal_entry "m3" 5 3000)] 3%nat).
    reflexivity.
Defined.

Lemma selection_single_level_witness :
  selectMessagesForSummary
    [Message (journal_entry "a" 1 8000); Summary (digest "b" 2 3 1 9000);
     Message (journal_entry "c" 4 8500); Summary (digest "d" 5 6 1 8000)]
  = [Message (journal_entry "a" 1 8000)].
Proof.
  destruct selection_single_level as (_ & Hscenario).
  apply Hscenario.
  - reflexivity.
  - repeat constructor; vm_compute; discriminate.
Defined.

Lemma compressMessages_summary_witness :
  exists summary,
    compressMessages decimal_formatTimestamp (always_completes "gist")
      (flat_embedding 7) "s1"
      [Message (journal_entry "m1" 1 4000); Message (journal_entry "m2" 2 4000)]
    = Ok summary /\
    DBSummary.level (ChatSummary.record summary) = 0 + 1 /\
    DBSummary.dateFrom (ChatSummary.record summary) = Some 1 /\
    DBSummary.dateTo (ChatSummary.record summary) = Some 2 /\
    DBSummary.parentId (ChatSummary.record summary) = "NULL".
Proof.
  destruct (compressMessages_summary decimal_formatTimestamp
              (always_completes "gist") (flat_embedding 7) "s1"
              [Message (journal_entry "m1" 1 4000);
               Message (journal_entry "m2" 2 4000)]
              (Message (journal_entry "m1" 1 4000))
              (Message (journal_entry "m2" 2 4000)) 0
              eq_refl eq_refl ltac:(repeat constructor))
    as [Hfields _].
  eexists. split; [reflexivity|].
  edestruct Hfields as (Hlevel & Hfrom & Hto & Hparent & _); [reflexivity|].
  exact (conj Hlevel (conj Hfrom (conj Hto Hparent))).
Defined.

(** C3, as worded, fails on a slice of summaries: the new [dateFrom] is the
    first summary's [dateFrom], not the timestamp it is ordered by. *)
Lemma compressMessages_dateFrom_counterexample :
  exists summary,
    compressMessages decimal_formatTimestamp (always_completes "gist")
      (flat_embedding 7) "s2" [Summary (digest "s1" 10 20 1 4000)]
    = Ok summary /\
    orderingTimestamp (Summary (digest "s1" 10 20 1 4000)) = Some 20 /\
    DBSummary.dateFrom (ChatSummary.record summary) = Some 10 /\
    DBSummary.dateFrom (ChatSummary.record summary)
      <> orderingTimestamp (Summary (digest "s1" 10 20 1 4000)).
Proof.
  eexists. split; [reflexivity|]. simpl. repeat split. discriminate.
Qed.

Lemma compressMessages_no_level_check_witness :
  exists summary,
    compressMessages decimal_formatTimestamp (always_completes "gist")
      (flat_embedding 7) "s9"
      [Message (journal_entry "m1" 1 4000); Summary (digest "s1" 2 3 3 4000)]
    = Ok summary /\
    DBSummary.level (ChatSummary.record summary) = 3 + 1.
Proof.
  destruct (compressMessages_no_level_check decimal_formatTimestamp
              (always_completes "gist") (flat_embedding 7) "s9")
    as [_ Hany].
  destruct (Hany [Message (journal_entry "m1" 1 4000);
                  Summary (digest "s1" 2 3 3 4000)]
              (Summary (digest "s1" 2 3 3 4000)) eq_refl)
    as [Hlevel Hreturns].
  assert (Hformats : Forall (formats decimal_formatTimestamp)
                       [Message (journal_entry "m1" 1 4000);
                        Summary (digest "s1" 2 3 3 4000)])
    by (constructor; [exists "1"; reflexivity|];
        constructor; [split; [exists "2"|exists "3"]; reflexivity|];
        constructor).
  assert (Hcompletes : forall req, exists completion,
               always_completes "gist" req = Ok completion /\
               is_Ok (first_choice_content completion))
    by (intros req; eexists; split; [reflexivity|]; unfold is_Ok; simpl; eauto).
  assert (Hembeds : forall text, is_Ok (flat_embedding 7 text))
    by (intros text; unfold is_Ok, flat_embedding; eauto).
  destruct (Hreturns Hformats Hcompletes Hembeds) as [summary Hok].
  exists summary. split; [exact Hok|]. apply Hlevel. exact Hok.
Defined.

(** C4, as worded, fails: a slice of a level-0 message and a level-3
    summary is not rejected; a summary of level 4 comes back. *)
Lemma compressMessages_mixed_levels_counterexample :
  currentLevel <$>
    [Message (journal_entry "m1" 1 4000); Summary (digest "s1" 2 3 3 4000)]
  = [0; 3] /\
  exists summary,
    compressMessages decimal_formatTimestamp (always_completes "gist")
      (flat_embedding 7) "s9"
      [Message (journal_entry "m1" 1 4000); Summary (digest "s1" 2 3 3 4000)]
    = Ok summary /\
    DBSummary.level (ChatSummary.record summary) = 4.
Proof.
  split; [reflexivity|]. eexists. split; reflexivity.
Qed.

Lemma replaceMessages_atomic_witness :
  exists db',
    replaceMessages idb_ok
      [Message (journal_entry "m1" 1 4000); Summary (digest "s1" 2 3 1 4000)]
      (digest "s2" 1 3 2 7) empty_db = (db', Ok tt) /\
    DBMessage.summaryId <$> messageStore db' !! "m1" = Some "s2" /\
    DBSummary.parentId <$> summaryStore db' !! "s1" = Some "s2" /\
    DBSummary.parentId <$> summaryStore db' !! "s2" = Some "NULL".
Proof.
  destruct (replaceMessages idb_ok
              [Message (journal_entry "m1" 1 4000);
               Summary (digest "s1" 2 3 1 4000)]
              (digest "s2" 1 3 2 7) empty_db) as [db' r] eqn:Hrun.
  assert (Hmessages : NoDup ["m1"]) by (apply NoDup_singleton).
  assert (Hsummaries : NoDup ["s2"; "s1"])
    by (apply NoDup_cons; split; [|apply NoDup_singleton];
        intros Hin; apply list_elem_of_singleton in Hin; discriminate).
  destruct (replaceMessages_atomic idb_ok
              [Message (journal_entry "m1" 1 4000);
               Summary (digest "s1" 2 3 1 4000)]
              (digest "s2" 1 3 2 7) empty_db db' r eq_refl Hmessages
              Hsummaries (lookup_empty _) Hrun) as [Hcases Hsucceeds].
  rewrite (Hsucceeds idb_ok_no_errors) in *.
  destruct Hcases
    as [(_ & (stored & Hnew & _ & Hnull) & Hm & Hs & _)|(e & He & _)];
    [|discriminate].
  exists db'. split; [reflexivity|].
  pose proof (Hm (ChatMessage.record (journal_entry "m1" 1 4000))) as Hm1.
  pose proof (Hs (ChatSummary.record (digest "s1" 2 3 1 4000))) as Hs1.
  simpl in Hm1, Hs1, Hnew.
  rewrite Hm1 by (apply list_elem_of_singleton; reflexivity).
  rewrite Hs1 by (apply list_elem_of_singleton; reflexivity).
  rewrite Hnew. simpl. rewrite Hnull. auto.
Defined.



Lemma updateData_overwrites_witness :
  updateData idb_ok [] [ChatMessage.record (journal_entry "a" 2 9)]
    {| summaryStore := ∅;
       messageStore := {["a" := ChatMessage.record (journal_entry "a" 1 5)]} |}
  = ({| summaryStore := ∅;
        messageStore :=
          <["a" := ChatMessage.record (journal_entry "a" 2 9)]>
            {["a" := ChatMessage.record (journal_entry "a" 1 5)]} |},
     Ok tt).
Proof.
  destruct (updateData_overwrites idb_ok
              {| summaryStore := ∅;
                 messageStore :=
                   {["a" := ChatMessage.record (journal_entry "a" 1 5)]} |}
              idb_ok_no_errors) as [Hmessage _].
  apply (Hmessage (ChatMessage.record (journal_entry "a" 2 9))).
Defined.

(** C8, as worded, fails: a message written under an id that is taken is
    not rejected; the write succeeds and the record that was there is
    replaced. *)
Lemma updateData_collision_counterexample :
  let old := ChatMessage.record (journal_entry "a" 1 5) in
  let new := ChatMessage.record (journal_entry "a" 2 9) in
  let db := {| summaryStore := ∅; messageStore := {["a" := old]} |} in
  messageStore db !! "a" = Some old /\
  exists db',
    updateData idb_ok [] [new] db = (db', Ok tt) /\
    messageStore db' !! "a" = Some new /\
    new <> old.
Proof.
  cbv zeta. split; [apply lookup_singleton_eq|].
  eexists. split; [apply updateData_no_errors, idb_ok_no_errors|].
  split; [apply lookup_insert_eq|discriminate].
Qed.

Lemma compaction_failure_keeps_message_witness :
  exists db2,
    send decimal_formatTimestamp (chat_only_completes "ok")
      (flat_embedding 8000) idb_ok idb_ok "m1" "s1" [] 5 "hello" empty_db
    = (db2, {| value := "hello"; isSending := false;
               console_error := [("Failed to send message", Rejected "503")];
               alerts := ["Ошибка при отправке сообщения"] |}) /\
    DBMessage.userContent <$> messageStore db2 !! "m1" = Some "hello".
Proof.
  destruct (createCompletion decimal_formatTimestamp (chat_only_completes "ok")
              (flat_embedding 8000) idb_ok "m1" [] "hello" (Some 5) empty_db)
    as [db1 [newChat|e1]] eqn:Hcreate; [|vm_compute in Hcreate; discriminate].
  assert (Hchat : newChat =
            [Message {| ChatMessage.timestamp := Some 5;
                        ChatMessage.record :=
                          {| DBMessage.id := "m1";
                             DBMessage.createdAt := Some 5;
                             DBMessage.userContent := "hello";
                             DBMessage.assistantContent := "ok";
                             DBMessage.tokensCount := 8000;
                             DBMessage.summaryId := "NULL" |} |}]).
  { pose proof Hcreate as Hrun.
    unfold createCompletion, M_bind, M_lift, M_ret in Hrun. simpl in Hrun.
    injection Hrun as _ <-. reflexivity. }
  assert (Hfails : compressChat decimal_formatTimestamp
                     (chat_only_completes "ok") (flat_embedding 8000) idb_ok
                     "s1" newChat db1 = (db1, Err (Rejected "503")))
    by (rewrite Hchat; reflexivity).
  destruct (compaction_failure_keeps_message decimal_formatTimestamp
              (chat_only_completes "ok") (flat_embedding 8000) idb_ok idb_ok
              "m1" "s1" [] 5 "hello" empty_db db1 db1 newChat (Rejected "503")
              Hcreate Hfails)
    as (_ & Hsend & _ & newMessage & _ & Hstored & _ & Htext & _).
  exists db1. split; [exact Hsend|]. rewrite Hstored. simpl. rewrite Htext.
  reflexivity.
Defined.

(** C7, as worded, fails: with the completion provider down for the
    compaction request, the message is persisted, the pass fails, and the
    failure is the outcome of [execute] itself, not something the pass
    caught. *)
Lemma compaction_failure_escapes_pass :
  let run :=
    execute decimal_formatTimestamp (chat_only_completes "ok")
      (flat_embedding 8000) idb_ok idb_ok "m1" "s1" [] 5 "hello" empty_db in
  (exists db1 newChat,
      createCompletion decimal_formatTimestamp (chat_only_completes "ok")
        (flat_embedding 8000) idb_ok "m1" [] "hello" (Some 5) empty_db
      = (db1, Ok newChat) /\
      snd (compressChat decimal_formatTimestamp (chat_only_completes "ok")
             (flat_embedding 8000) idb_ok "s1" newChat db1)
      = Err (Rejected "503")) /\
  snd run = Err (Rejected "503") /\
  snd run <> Ok tt /\
  is_Some (messageStore (fst run) !! "m1").
Proof.
  cbv zeta. split; [|split; [|split]].
  - do 2 eexists. split; [vm_compute; reflexivity|vm_compute; reflexivity].
  - vm_compute. reflexivity.
  - vm_compute. discriminate.
  - vm_compute. eauto.
Qed.

Lemma document_well_formed (summaryId : string) :
  well_formed decimal_Date_parse (document summaryId).
Proof.
  unfold well_formed, document. simpl. repeat split.
  - apply NoDup_cons. split; [|apply NoDup_singleton].
    intros Hin. apply list_elem_of_singleton in Hin. discriminate.
  - apply NoDup_singleton.
  - repeat constructor; vm_compute; eauto.
  - repeat constructor; vm_compute; eauto.
  - constructor; [|constructor; [|constructor]].
    + intros p [= <-]. apply list_elem_of_singleton. reflexivity.
    + intros p Hp. discriminate.
  - constructor; [|constructor]. intros p Hp. discriminate.
Qed.

Lemma export_import_roundtrip_witness :
  roundtrip_preserves decimal_Date_parse decimal_toISOString idb_ok idb_ok
    (document "s1") empty_db /\
  roundtrip_collapses decimal_Date_parse decimal_toISOString idb_ok idb_ok
    (document "NULL") empty_db.
Proof.
  destruct (export_import_roundtrip decimal_Date_parse decimal_toISOString
              decimal_clock) as [Hroundtrip _].
  split.
  - destruct (Hroundtrip idb_ok idb_ok (document "s1") empty_db
                idb_ok_no_errors idb_ok_no_errors (document_well_formed "s1"))
      as (_ & Hpreserves & _).
    apply Hpreserves. split; repeat constructor; discriminate.
  - destruct (Hroundtrip idb_ok idb_ok (document "NULL") empty_db
                idb_ok_no_errors idb_ok_no_errors
                (document_well_formed "NULL"))
      as (Hcollapses & _).
    exact Hcollapses.
Defined.

(** C9, as worded, fails on a well-formed document: with a summary whose
    id is the string ["NULL"], the reference of the message to it comes
    back as null. *)
Lemma roundtrip_sentinel_counterexample :
  well_formed decimal_Date_parse (document "NULL") /\
  (exists db' doc' m1' m2',
      roundtrip decimal_Date_parse decimal_toISOString idb_ok idb_ok
        (document "NULL") empty_db = (db', Ok doc') /\
      ImportedData.message (ImportedData.data doc') = [m1'; m2'] /\
      ImportedMessage.id m1' = "m1" /\
      ImportedMessage.summary_id m1' = None) /\
  ~ roundtrip_preserves decimal_Date_parse decimal_toISOString idb_ok idb_ok
      (document "NULL") empty_db.
Proof.
  split; [apply document_well_formed|]. split.
  - do 4 eexists. split; [vm_compute; reflexivity|].
    split; [reflexivity|]. split; reflexivity.
  - intros (db' & doc' & Hrun & _ & Hmessages & _).
    remember (roundtrip decimal_Date_parse decimal_toISOString idb_ok idb_ok
                (document "NULL") empty_db) as out eqn:Hout.
    vm_compute in Hout. subst out. injection Hrun as _ <-.
    assert (Hin : normal_message decimal_Date_parse decimal_toISOString
                    {| ImportedMessage.id := "m1";
                       ImportedMessage.created_at := "10";
                       ImportedMessage.user_content := "dear diary";
                       ImportedMessage.assistant_content := "go on";
                       ImportedMessage.tokens_count := 5;
                       ImportedMessage.summary_id := Some "NULL" |}
                  ∈ normal_message decimal_Date_parse decimal_toISOString
                      <$> ImportedData.message
                            (ImportedData.data (document "NULL")))
      by (apply elem_of_cons; left; reflexivity).
    rewrite <- Hmessages in Hin. simpl in Hin.
    apply elem_of_cons in Hin as [Heq|Hin]; [discriminate|].
    apply list_elem_of_singleton in Hin. discriminate.
Qed.


(** ** The further properties on examples *)

Lemma selection_older_half_witness :
  length (selectMessagesForSummary
            [Message (journal_entry "m1" 1 4000);
             Message (journal_entry "m2" 2 4000)]) = 1%nat.
Proof.
  destruct (selection_older_half
              [Message (journal_entry "m1" 1 4000);
               Message (journal_entry "m2" 2 4000)]) as [Hhalf _].
  destruct (Hhalf 1%nat eq_refl) as (Hlen & _). exact Hlen.
Defined.

Lemma selection_ignores_later_items_witness :
  selectMessagesForSummary
    ([Message (journal_entry "m1" 1 8000)]
       ++ [Message (journal_entry "m2" 2 4000)])
  = selectMessagesForSummary [Message (journal_entry "m1" 1 8000)].
Proof.
  apply selection_ignores_later_items. vm_compute. discriminate.
Defined.

Lemma compressChat_below_threshold_witness :
  compressChat decimal_formatTimestamp (chat_only_completes "ok")
    (flat_embedding 7) idb_blocked "s1"
    [Message (journal_entry "m1" 1 100); Summary (digest "s0" 0 1 1 50)]
    small_db
  = (small_db, Ok tt).
Proof.
  apply compressChat_below_threshold.
  - constructor; [simpl; lia|]. constructor; [simpl; lia|]. constructor.
  - vm_compute. reflexivity.
Defined.

Lemma compaction_raises_level_witness :
  exists summary,
    compressMessages decimal_formatTimestamp (always_completes "gist")
      (flat_embedding 7) "s2"
      (selectMessagesForSummary
         [Summary (digest "s0" 0 1 2 5000); Summary (digest "s1" 1 2 2 5000)])
    = Ok summary /\
    DBSummary.level (ChatSummary.record summary) = 2 + 1.
Proof.
  destruct (compressMessages decimal_formatTimestamp (always_completes "gist")
              (flat_embedding 7) "s2"
              (selectMessagesForSummary
                 [Summary (digest "s0" 0 1 2 5000);
                  Summary (digest "s1" 1 2 2 5000)]))
    as [summary|e] eqn:Hok; [|vm_compute in Hok; discriminate].
  exists summary. split; [reflexivity|].
  destruct (compaction_raises_level _ _ _ _ _ _ Hok) as [_ Hlevel].
  apply (Hlevel (Summary (digest "s0" 0 1 2 5000))).
  apply elem_of_cons. left. reflexivity.
Defined.

Lemma replaceMessages_active_sets_witness :
  exists db',
    replaceMessages idb_ok
      [Message (journal_entry "m1" 10 4000)] (digest "s2" 10 10 1 7) small_db
    = (db', Ok tt) /\
    summaryStore db' !! "s2" = Some (ChatSummary.record (digest "s2" 10 10 1 7)).
Proof.
  destruct (replaceMessages idb_ok [Message (journal_entry "m1" 10 4000)]
              (digest "s2" 10 10 1 7) small_db) as [db' r] eqn:Hrun.
  assert (Hr : r = Ok tt).
  { unfold replaceMessages in Hrun. simpl in Hrun.
    rewrite updateData_no_errors in Hrun by apply idb_ok_no_errors.
    injection Hrun as _ <-. reflexivity. }
  subst r. exists db'. split; [reflexivity|].
  destruct (replaceMessages_active_sets idb_ok
              [Message (journal_entry "m1" 10 4000)] (digest "s2" 10 10 1 7)
              small_db db' eq_refl) as [_ Hsummaries].
  - discriminate.
  - simpl. apply not_elem_of_nil.
  - exact Hrun.
  - apply (Hsummaries "s2" (ChatSummary.record (digest "s2" 10 10 1 7))).
    left. split; reflexivity.
Defined.

Lemma updateData_never_deletes_witness :
  is_Some
    (messageStore
       (updateData idb_ok [] [ChatMessage.record (journal_entry "m2" 20 5)]
          small_db).1 !! "m1").
Proof.
  destruct (updateData_never_deletes idb_ok []
              [ChatMessage.record (journal_entry "m2" 20 5)] small_db)
    as (Hmessages & _).
  apply Hmessages. simpl. rewrite lookup_singleton_eq. eauto.
Defined.

Lemma import_failure_leaves_store_witness :
  importDataToIndexedDB decimal_Date_parse idb_blocked (document "s1") small_db
  = (small_db, Err (Rejected "blocked")).
Proof.
  destruct (import_failure_leaves_store decimal_Date_parse idb_blocked
              (document "s1") small_db) as [_ Hblocked].
  apply Hblocked. reflexivity.
Defined.

Lemma import_without_clear_merges_witness :
  messageStore
    (importDataToIndexedDB_without_clear decimal_Date_parse idb_ok
       (notes_document [note "m2" "20" "more"]) small_db).1 !! "m1"
  = Some (ChatMessage.record (journal_entry "m1" 10 5)).
Proof.
  destruct (import_without_clear_merges decimal_Date_parse idb_ok
              (notes_document [note "m2" "20" "more"]) small_db)
    as [Hmerged _].
  destruct Hmerged as (_ & _ & Hkept & _).
  - unfold importDataToIndexedDB_without_clear.
    rewrite transaction_no_errors by apply idb_ok_no_errors. reflexivity.
  - rewrite Hkept.
    + simpl. apply lookup_singleton_eq.
    + simpl. intros Hin. apply list_elem_of_singleton in Hin. discriminate.
Defined.

Lemma small_db_keyed : keyed small_db /\ dates_valid small_db.
Proof.
  unfold keyed, dates_valid, small_db. simpl. repeat split.
  - intros k m Hk. apply lookup_singleton_Some in Hk as [<- <-]. reflexivity.
  - intros k s Hk. apply lookup_singleton_Some in Hk as [<- <-]. reflexivity.
  - intros k m Hk. apply lookup_singleton_Some in Hk as [_ <-]. simpl. eauto.
  - apply lookup_singleton_Some in H as [_ <-]. simpl. eauto.
  - apply lookup_singleton_Some in H as [_ <-]. simpl. eauto.
Qed.

Lemma import_export_restores_witness :
  exists doc,
    exportDataFromIndexedDB decimal_toISOString idb_ok small_db
    = (small_db, Ok doc) /\
    forall db0,
      importDataToIndexedDB decimal_Date_parse idb_ok doc db0
      = (small_db, Ok tt).
Proof.
  apply (import_export_restores decimal_Date_parse decimal_toISOString
           idb_ok idb_ok small_db decimal_clock
           idb_ok_no_errors idb_ok_no_errors);
    apply small_db_keyed.
Defined.

Lemma export_rejects_imported_invalid_date_witness :
  exists db1,
    importDataToIndexedDB decimal_Date_parse idb_ok
      (notes_document [note "m1" "yesterday" "hello"]) empty_db
    = (db1, Ok tt) /\
    exportDataFromIndexedDB decimal_toISOString idb_ok db1
    = (db1, Err RangeError).
Proof.
  apply (export_rejects_imported_invalid_date decimal_Date_parse
           decimal_toISOString idb_ok idb_ok
           (notes_document [note "m1" "yesterday" "hello"]) empty_db
           (note "m1" "yesterday" "hello")
           idb_ok_no_errors idb_ok_no_errors).
  - apply NoDup_singleton.
  - apply list_elem_of_singleton. reflexivity.
  - vm_compute. reflexivity.
Defined.

Lemma createCompletion_no_partial_message_witness :
  (createCompletion decimal_formatTimestamp (always_completes "ok")
     (flat_embedding 7) idb_ok "m2" [] "hello" None small_db).1
  = small_db.
Proof.
  destruct (createCompletion decimal_formatTimestamp (always_completes "ok")
              (flat_embedding 7) idb_ok "m2" [] "hello" None small_db)
    as [db' [newChat|e]] eqn:Hrun; [vm_compute in Hrun; discriminate|].
  destruct (createCompletion_no_partial_message decimal_formatTimestamp
              (always_completes "ok") (flat_embedding 7) idb_ok "m2" []
              "hello" None small_db) as [Hnothing _].
  apply (Hnothing db' e Hrun).
Defined.

Lemma createCompletion_appends_one_message_witness :
  exists db1 newChat,
    createCompletion decimal_formatTimestamp (always_completes "ok")
      (flat_embedding 7) idb_ok "m2" [messageItem
        (ChatMessage.record (journal_entry "m1" 10 5))] "hello" (Some 20)
      small_db
    = (db1, Ok newChat) /\
    length newChat = 2%nat /\
    summaryStore db1 = summaryStore small_db /\
    (DBMessage.assistantContent <$> messageStore db1 !! "m2") = Some "ok".
Proof.
  destruct (createCompletion decimal_formatTimestamp (always_completes "ok")
              (flat_embedding 7) idb_ok "m2"
              [messageItem (ChatMessage.record (journal_entry "m1" 10 5))]
              "hello" (Some 20) small_db)
    as [db1 [newChat|e]] eqn:Hrun.
  - exists db1, newChat. split; [reflexivity|].
    destruct (createCompletion_appends_one_message _ _ _ _ _ _ _ _ _ _ _ Hrun)
      as (turns & stamp & completion & choice & rest & embedding
          & _ & _ & Hcompletion & Hchoices & _ & Hchat & Hmessages
          & Hsummaries).
    unfold always_completes in Hcompletion. injection Hcompletion as <-.
    injection Hchoices as <- _.
    rewrite Hchat, Hmessages, lookup_insert_eq.
    split; [reflexivity|]. split; [exact Hsummaries|reflexivity].
  - unfold createCompletion, M_bind, M_lift, M_ret in Hrun. simpl in Hrun.
    discriminate.
Defined.

Lemma createCompletion_request_witness :
  exists req,
    is_Ok (always_completes "ok" req) /\
    length (messages req) = 4%nat.
Proof.
  destruct (createCompletion decimal_formatTimestamp (always_completes "ok")
              (flat_embedding 7) idb_ok "m2"
              [messageItem (ChatMessage.record (journal_entry "m1" 10 5))]
              "hello" (Some 20) small_db)
    as [db1 [newChat|e]] eqn:Hrun.
  - destruct (createCompletion_request _ _ _ _ _ _ _ _ _ _ _ Hrun)
      as (req & turns & stamp & Hreq & _ & _ & _ & Hmessages & Hlen & _).
    exists req. split; [exact Hreq|].
    rewrite Hmessages, !length_app, Hlen. reflexivity.
  - unfold createCompletion, M_bind, M_lift, M_ret in Hrun. simpl in Hrun.
    discriminate.
Defined.

Lemma execute_outcome_witness :
  is_Some
    (messageStore
       (execute decimal_formatTimestamp (chat_only_completes "ok")
          (flat_embedding 8000) idb_ok idb_ok "m2" "s2"
          [messageItem (ChatMessage.record (journal_entry "m1" 10 5))]
          20 "hello" small_db).1 !! "m2").
Proof.
  destruct (execute decimal_formatTimestamp (chat_only_completes "ok")
              (flat_embedding 8000) idb_ok idb_ok "m2" "s2"
              [messageItem (ChatMessage.record (journal_entry "m1" 10 5))]
              20 "hello" small_db) as [db' r] eqn:Hrun.
  assert (Hfresh : "m2" ∉ DBMessage.id <$> slice_messages
                      [messageItem (ChatMessage.record (journal_entry "m1" 10 5))])
    by (simpl; intros Hin; apply list_elem_of_singleton in Hin; discriminate).
  destruct (execute_outcome decimal_formatTimestamp (chat_only_completes "ok")
              (flat_embedding 8000) idb_ok idb_ok "m2" "s2"
              [messageItem (ChatMessage.record (journal_entry "m1" 10 5))]
              20 "hello" small_db db' r Hfresh Hrun)
    as [(e & Hfailed & _)|(m & Hstored & _)].
  - unfold createCompletion, M_bind, M_lift, M_ret in Hfailed.
    simpl in Hfailed.
    discriminate.
  - simpl. rewrite Hstored. eauto.
Defined.

Lemma getChat_message_before_summary_witness :
  exists chat,
    getChat idb_ok idb_ok small_db = (small_db, Ok chat) /\
    appears_before
      (messageItem (ChatMessage.record (journal_entry "m1" 10 5)))
      (summaryItem (ChatSummary.record (digest "s1" 1 10 1 7))) chat.
Proof.
  destruct (getChat_no_errors idb_ok idb_ok small_db idb_ok_no_errors
              idb_ok_no_errors) as [chat Hget].
  exists chat. split; [exact Hget|].
  apply (getChat_message_before_summary idb_ok idb_ok small_db small_db chat
           _ _ 10 10 Hget).
  - apply getChat_Ok in Hget as [_ ->]. rewrite sort_Permutation.
    unfold small_db. cbn [messageStore summaryStore].
    rewrite !cursor_singleton. repeat constructor; simpl; eauto.
  - exists "m1". split; [apply lookup_singleton_eq|reflexivity].
  - exists "s1". split; [apply lookup_singleton_eq|reflexivity].
  - reflexivity.
  - reflexivity.
  - lia.
Defined.

Lemma compaction_span_witness :
  exists summary,
    compressMessages decimal_formatTimestamp (always_completes "gist")
      (flat_embedding 7) "s1"
      (selectMessagesForSummary
         [Message (journal_entry "m1" 1 3000);
          Message (journal_entry "m2" 2 3000);
          Message (journal_entry "m3" 3 3000)])
    = Ok summary /\
    DBSummary.dateFrom (ChatSummary.record summary) = Some 1 /\
    DBSummary.dateTo (ChatSummary.record summary) = Some 2.
Proof.
  destruct (compressMessages decimal_formatTimestamp (always_completes "gist")
              (flat_embedding 7) "s1"
              (selectMessagesForSummary
                 [Message (journal_entry "m1" 1 3000);
                  Message (journal_entry "m2" 2 3000);
                  Message (journal_entry "m3" 3 3000)]))
    as [summary|e] eqn:Hok; [|vm_compute in Hok; discriminate].
  destruct (compaction_span decimal_formatTimestamp (always_completes "gist")
              (flat_embedding 7) "s1"
              [Message (journal_entry "m1" 1 3000);
               Message (journal_entry "m2" 2 3000);
               Message (journal_entry "m3" 3 3000)] summary)
    as (a & b & Hfrom & Hto & _ & _ & (first & Hfirst & Ha)
        & (lst & Hlast & _ & Hb)).
  - assert (Hle : forall i x j y c d,
              (x <= y) ->
              timestamp_le (Message (journal_entry i x c))
                (Message (journal_entry j y d)))
      by (intros i x j y c d Hxy; exists x, y; auto).
    apply SSorted_cons;
      [apply SSorted_cons; [apply SSorted_cons; [apply SSorted_nil|]|]|];
      repeat (constructor; [apply Hle; lia|]); constructor.
  - repeat (constructor; [reflexivity|]). constructor.
  - repeat (constructor;
            [eexists _, _; split; [reflexivity|split; [reflexivity|lia]]|]).
    constructor.
  - exact Hok.
  - vm_compute in Hfirst. injection Hfirst as <-.
    vm_compute in Hlast. injection Hlast as <-.
    simpl in Ha, Hb. injection Ha as <-. injection Hb as <-.
    exists summary. auto.
Defined.

Lemma compressChat_compacts_selection_witness :
  exists db' new,
    compressChat decimal_formatTimestamp (always_completes "gist")
      (flat_embedding 7) idb_ok "s2"
      [Message (journal_entry "m1" 10 9000)] small_db
    = (db', Ok tt) /\
    summaryStore db' !! "s2" = Some new /\
    DBSummary.level new = 0 + 1.
Proof.
  destruct (compressChat decimal_formatTimestamp (always_completes "gist")
              (flat_embedding 7) idb_ok "s2"
              [Message (journal_entry "m1" 10 9000)] small_db)
    as [db' [[]|e]] eqn:Hrun;
    [|unfold compressChat, M_bind, M_lift, replaceMessages in Hrun;
      simpl in Hrun; discriminate].
  destruct (compressChat_compacts_selection decimal_formatTimestamp
              (always_completes "gist") (flat_embedding 7) idb_ok "s2"
              [Message (journal_entry "m1" 10 9000)] small_db db')
    as (new & Hstored & _ & _ & Hlevel & _).
  - discriminate.
  - simpl. apply not_elem_of_nil.
  - vm_compute. discriminate.
  - exact Hrun.
  - exists db', new. split; [reflexivity|]. split; [exact Hstored|].
    apply (Hlevel (Message (journal_entry "m1" 10 9000))).
    apply elem_of_cons. left. reflexivity.
Defined.

Lemma import_last_record_wins_witness :
  exists db',
    importDataToIndexedDB decimal_Date_parse idb_ok
      (notes_document [note "m1" "10" "draft"; note "m1" "20" "final"])
      small_db
    = (db', Ok tt) /\
    messageStore db' !! "m1"
    = Some (convert_message decimal_Date_parse (note "m1" "20" "final")).
Proof.
  destruct (importDataToIndexedDB decimal_Date_parse idb_ok
              (notes_document [note "m1" "10" "draft"; note "m1" "20" "final"])
              small_db) as [db' r] eqn:Hrun.
  assert (Hr : r = Ok tt).
  { rewrite import_no_errors in Hrun by apply idb_ok_no_errors.
    injection Hrun as _ <-. reflexivity. }
  subst r. exists db'. split; [reflexivity|].
  destruct (import_last_record_wins decimal_Date_parse idb_ok _ _ _ Hrun)
    as [Hmessages _].
  apply (Hmessages [note "m1" "10" "draft"] (note "m1" "20" "final") []).
  - reflexivity.
  - apply not_elem_of_nil.
Defined.
